(** * MongoAlchemy: the atomic update-expression builder

    A shallow embedding of [mongoalchemy/update_expression.py] and the
    properties of its accumulator: modifier validation, value wrapping, the
    accumulated [update_data] document, the upsert/multi flags and the
    hand-off to the session. *)

From Stdlib Require Import ZArith.
From stdpp Require Import base option strings list gmap.

Set Warnings "-register-all".

(** ** Python values *)

(** The values that flow through the builder: what callers pass, what the
    field types' [wrap] returns and what ends up in [update_data]. *)
Inductive pyval : Type :=
  | PyNone
  | PyBool (b : bool)
  | PyInt (z : Z)
  | PyStr (s : string)
  | PyList (items : list pyval)
  | PyTuple (items : list pyval).

(** ** Exceptions *)

(** [InvalidModifierException] carries the one argument its [__init__] hands
    to [UpdateException.__init__]: the formatted message.
    [BadValueException] is what [mongoalchemy.fields] raises from [wrap];
    [AttributeError] and [KeyError] are the interpreter's own.
    [ReferenceError] stands for a reference to no object; Python references
    never dangle, so every property below is stated for an allocated
    builder. *)
Inductive exn : Type :=
  | InvalidModifierException (msg : string)
  | BadValueException (msg : string)
  | AttributeError (attr : string)
  | KeyError (key : string)
  | ReferenceError.

(** ** Collaborators consumed read-only *)

(** A field type as the builder sees it: the name of its class, its
    [valid_modifiers], its [wrap] (which returns the wrapped value or raises
    [BadValueException] with a message), the attribute [item_type] and the
    method [child_type()], each present only on some classes. *)
Inductive field_type : Type := Field {
  class_name : string;
  valid_modifiers : list string;
  wrap : pyval → string + pyval;
  item_type : option field_type;
  child_type : option field_type
}.

Record QueryField : Type := {
  get_type : field_type;
  get_name : string
}.

(** A query: only its [session] attribute is read here. *)
Record Query : Type := {
  query_filter : pyval;
  query_session : positive
}.

(** ** The builder object *)

Record UpdateExpression : Type := {
  query : Query;
  session : positive;
  update_data : gmap string (gmap string pyval);
  __upsert : bool;
  __multi : bool
}.

(** What a session puts on the wire for one executed update. *)
Record command : Type := {
  cmd_session : positive;
  cmd_query : Query;
  cmd_operations : gmap string (gmap string pyval);
  cmd_upsert : bool;
  cmd_multi : bool
}.

(** ** The object store *)

Definition loc : Type := positive.

(** Builders live in [objects] and are passed around by reference; [wire]
    collects what sessions sent. *)
Record world : Type := World {
  objects : gmap loc UpdateExpression;
  wire : list command
}.

(** ** State and exceptions *)

(** A computation transforms the world and either returns or raises; what it
    wrote before raising stays written. *)
Definition M (A : Type) : Type := world → (exn + A) * world.

Definition ret {A} (a : A) : M A := λ w, (inr a, w).

Definition raise {A} (e : exn) : M A := λ w, (inl e, w).

Definition bind {A B} (m : M A) (k : A → M B) : M B :=
  λ w, match m w with
       | (inl e, w') => (inl e, w')
       | (inr a, w') => k a w'
       end.

#[global] Instance M_ret : MRet M := @ret.
#[global] Instance M_bind : MBind M := λ A B k m, bind m k.

Definition load (self : loc) : M UpdateExpression :=
  λ w, match objects w !! self with
       | Some u => (inr u, w)
       | None => (inl ReferenceError, w)
       end.

Definition store (self : loc) (u : UpdateExpression) : M unit :=
  λ w, (inr tt, World (<[self := u]> (objects w)) (wire w)).

Definition with_update_data (d : gmap string (gmap string pyval))
    (u : UpdateExpression) : UpdateExpression :=
  {| query := query u; session := session u; update_data := d;
     __upsert := __upsert u; __multi := __multi u |}.

Definition with_upsert (b : bool) (u : UpdateExpression) : UpdateExpression :=
  {| query := query u; session := session u; update_data := update_data u;
     __upsert := b; __multi := __multi u |}.

Definition with_multi (b : bool) (u : UpdateExpression) : UpdateExpression :=
  {| query := query u; session := session u; update_data := update_data u;
     __upsert := __upsert u; __multi := b |}.

(** [self.update_data] *)
Definition getattr_update_data (self : loc) : M (gmap string (gmap string pyval)) :=
  u ← load self; mret (update_data u).

(** [self.update_data[op] = d] *)
Definition update_data_setitem (self : loc) (op : string)
    (d : gmap string pyval) : M unit :=
  u ← load self; store self (with_update_data (<[op := d]> (update_data u)) u).

(** [self.update_data[op][name] = v]: the inner dictionary is looked up
    ([KeyError] when absent) and mutated in place. *)
Definition update_data_setitem2 (self : loc) (op name : string)
    (v : pyval) : M unit :=
  u ← load self;
  match update_data u !! op with
  | None => raise (KeyError op)
  | Some d =>
      store self (with_update_data (<[op := <[name := v]> d]> (update_data u)) u)
  end.

(** [T.wrap(value)] *)
Definition call_wrap (T : field_type) (value : pyval) : M pyval :=
  match wrap T value with
  | inl msg => raise (BadValueException msg)
  | inr v => mret v
  end.

(** [T.item_type] *)
Definition getattr_item_type (T : field_type) : M field_type :=
  match item_type T with
  | Some t => mret t
  | None => raise (AttributeError "item_type")
  end.

(** [T.child_type()] *)
Definition call_child_type (T : field_type) : M field_type :=
  match child_type T with
  | Some t => mret t
  | None => raise (AttributeError "child_type")
  end.

(** [InvalidModifierException(field, op)]: the message is
    ['Invalid modifier for %s field: %s' % (field.__class__.__name__, op)]. *)
Definition new_InvalidModifierException (field : field_type) (op : string) : exn :=
  InvalidModifierException
    ("Invalid modifier for " +:+ class_name field +:+ " field: " +:+ op).

(** ** [UpdateExpression] *)

Definition UpdateExpression__init__ (q : Query) : UpdateExpression :=
  {| query := q; session := query_session q; update_data := ∅;
     __upsert := false; __multi := false |}.

(** [UpdateExpression(query)]: a new object at an unused location. *)
Definition new_UpdateExpression (q : Query) : M loc :=
  λ w, let self := fresh (dom (objects w)) in
       (inr self,
        World (<[self := UpdateExpression__init__ q]> (objects w)) (wire w)).

Definition upsert (self : loc) : M loc :=
  u ← load self; store self (with_upsert true u);; mret self.

Definition multi (self : loc) : M loc :=
  u ← load self; store self (with_multi true u);; mret self.

(** The loop [for v in value: wrapped.append(item_type.wrap(v))]. *)
Fixpoint wrap_each (T : field_type) (value : list pyval)
    (wrapped : list pyval) : M (list pyval) :=
  match value with
  | [] => mret wrapped
  | v :: rest =>
      it ← getattr_item_type T;
      w ← call_wrap it v;
      wrap_each T rest (wrapped ++ [w])
  end.

Definition _atomic_list_op_multivalue (self : loc) (op : string)
    (qfield : QueryField) (value : list pyval) : M loc :=
  if decide (op ∉ valid_modifiers (get_type qfield)) then
    raise (new_InvalidModifierException (get_type qfield) op)
  else
    wrapped ← wrap_each (get_type qfield) value [];
    d ← getattr_update_data self;
    match d !! op with
    | None => update_data_setitem self op ∅
    | Some _ => mret tt
    end;;
    update_data_setitem2 self op (get_name qfield) (PyTuple value);;
    mret self.

Definition _atomic_list_op (self : loc) (op : string)
    (qfield : QueryField) (value : pyval) : M loc :=
  if decide (op ∉ valid_modifiers (get_type qfield)) then
    raise (new_InvalidModifierException (get_type qfield) op)
  else
    d ← getattr_update_data self;
    match d !! op with
    | None => update_data_setitem self op ∅
    | Some _ => mret tt
    end;;
    ct ← call_child_type (get_type qfield);
    v ← call_wrap ct value;
    update_data_setitem2 self op (get_name qfield) v;;
    mret self.

Definition _atomic_op (self : loc) (op : string)
    (qfield : QueryField) (value : pyval) : M loc :=
  if decide (op ∉ valid_modifiers (get_type qfield)) then
    raise (new_InvalidModifierException (get_type qfield) op)
  else
    d ← getattr_update_data self;
    match d !! op with
    | None => update_data_setitem self op ∅
    | Some _ => mret tt
    end;;
    v ← call_wrap (get_type qfield) value;
    update_data_setitem2 self op (get_name qfield) v;;
    mret self.

Definition _atomic_generic_op (self : loc) (op : string)
    (qfield : QueryField) (value : pyval) : M loc :=
  if decide (op ∉ valid_modifiers (get_type qfield)) then
    raise (new_InvalidModifierException (get_type qfield) op)
  else
    d ← getattr_update_data self;
    match d !! op with
    | None => update_data_setitem self op ∅
    | Some _ => mret tt
    end;;
    update_data_setitem2 self op (get_name qfield) value;;
    mret self.

Definition set (self : loc) (qfield : QueryField) (value : pyval) : M loc :=
  _atomic_op self "$set" qfield value.

Definition unset (self : loc) (qfield : QueryField) : M loc :=
  _atomic_generic_op self "$unset" qfield (PyBool true).

(** [inc(qfield, value=1)] *)
Definition inc (self : loc) (qfield : QueryField) (value : option pyval) : M loc :=
  _atomic_op self "$inc" qfield (default (PyInt 1) value).

Definition append (self : loc) (qfield : QueryField) (value : pyval) : M loc :=
  _atomic_list_op self "$push" qfield value.

Definition extend (self : loc) (qfield : QueryField) (value : list pyval) : M loc :=
  _atomic_list_op_multivalue self "$pushAll" qfield value.

Definition remove (self : loc) (qfield : QueryField) (value : pyval) : M loc :=
  _atomic_list_op self "$pull" qfield value.

Definition remove_all (self : loc) (qfield : QueryField) (value : list pyval) : M loc :=
  _atomic_list_op_multivalue self "$pullAll" qfield value.

Definition add_to_set (self : loc) (qfield : QueryField) (value : pyval) : M loc :=
  _atomic_list_op self "$addToSet" qfield value.

Definition pop_last (self : loc) (qfield : QueryField) : M loc :=
  _atomic_generic_op self "$pop" qfield (PyInt 1).

Definition pop_first (self : loc) (qfield : QueryField) : M loc :=
  _atomic_generic_op self "$pop" qfield (PyInt (-1)).

Definition get_upsert (self : loc) : M bool :=
  u ← load self; mret (__upsert u).

Definition get_multi (self : loc) : M bool :=
  u ← load self; mret (__multi u).

Section Execute.

(** [session.execute_update(update)] belongs to the session class, which
    lives outside this module: any computation over the world. *)
Variable execute_update : positive → loc → M unit.

Definition execute (self : loc) : M unit :=
  u ← load self; execute_update (session u) self.

End Execute.

(** ** The public accumulator calls, reified *)

(** One constructor per operator method, so that a property can speak of
    every operator call. *)
Inductive call : Type :=
  | CallSet (qfield : QueryField) (value : pyval)
  | CallUnset (qfield : QueryField)
  | CallInc (qfield : QueryField) (value : option pyval)
  | CallAppend (qfield : QueryField) (value : pyval)
  | CallExtend (qfield : QueryField) (value : list pyval)
  | CallRemove (qfield : QueryField) (value : pyval)
  | CallRemoveAll (qfield : QueryField) (value : list pyval)
  | CallAddToSet (qfield : QueryField) (value : pyval)
  | CallPopLast (qfield : QueryField)
  | CallPopFirst (qfield : QueryField).

Definition run_call (self : loc) (c : call) : M loc :=
  match c with
  | CallSet qfield value => set self qfield value
  | CallUnset qfield => unset self qfield
  | CallInc qfield value => inc self qfield value
  | CallAppend qfield value => append self qfield value
  | CallExtend qfield value => extend self qfield value
  | CallRemove qfield value => remove self qfield value
  | CallRemoveAll qfield value => remove_all self qfield value
  | CallAddToSet qfield value => add_to_set self qfield value
  | CallPopLast qfield => pop_last self qfield
  | CallPopFirst qfield => pop_first self qfield
  end.

(** The operator a call uses and the field it targets. *)
Definition call_op (c : call) : string :=
  match c with
  | CallSet _ _ => "$set"
  | CallUnset _ => "$unset"
  | CallInc _ _ => "$inc"
  | CallAppend _ _ => "$push"
  | CallExtend _ _ => "$pushAll"
  | CallRemove _ _ => "$pull"
  | CallRemoveAll _ _ => "$pullAll"
  | CallAddToSet _ _ => "$addToSet"
  | CallPopLast _ | CallPopFirst _ => "$pop"
  end.

Definition call_qfield (c : call) : QueryField :=
  match c with
  | CallSet q _ | CallUnset q | CallInc q _ | CallAppend q _ | CallExtend q _
  | CallRemove q _ | CallRemoveAll q _ | CallAddToSet q _ | CallPopLast q
  | CallPopFirst q => q
  end.

(** The flag setters, in the same way. *)
Inductive flag_call : Type := CallUpsert | CallMulti.

Definition run_flag (self : loc) (c : flag_call) : M loc :=
  match c with
  | CallUpsert => upsert self
  | CallMulti => multi self
  end.

(** A fluent chain [self.c1().c2()...]: each call is made on what the
    previous one returned. *)
Fixpoint run_flags (self : loc) (cs : list flag_call) : M loc :=
  match cs with
  | [] => mret self
  | c :: rest => r ← run_flag self c; run_flags r rest
  end.

(** ** Vocabulary for the statements *)

(** The world in which the object at [self] is [u]. *)
Definition put (self : loc) (u : UpdateExpression) (w : world) : world :=
  World (<[self := u]> (objects w)) (wire w).

(** The effect of [if op not in d: d[op] = {}] on the document. *)
Definition ensure_op (op : string) (d : gmap string (gmap string pyval))
    : gmap string (gmap string pyval) :=
  match d !! op with
  | None => <[op := ∅]> d
  | Some _ => d
  end.

Definition ensured (op : string) (u : UpdateExpression) : UpdateExpression :=
  with_update_data (ensure_op op (update_data u)) u.

(** The document after [d[op][name] = v], the dictionary of [op] being
    created when absent. *)
Definition entry_set (op name : string) (v : pyval)
    (d : gmap string (gmap string pyval)) : gmap string (gmap string pyval) :=
  <[op := <[name := v]> (default ∅ (d !! op))]> d.

Definition stored (op name : string) (v : pyval) (u : UpdateExpression)
    : UpdateExpression :=
  with_update_data (entry_set op name v (update_data u)) u.

(** [d[op][name]], when both keys are present. *)
Definition entry (op name : string) (d : gmap string (gmap string pyval))
    : option pyval :=
  d !! op ≫= (.!! name).

(** The loop of [_atomic_list_op_multivalue] read as a function: it touches
    no object. *)
Fixpoint wrapped_items (T : field_type) (value : list pyval)
    (wrapped : list pyval) : exn + list pyval :=
  match value with
  | [] => inr wrapped
  | v :: rest =>
      match item_type T with
      | None => inl (AttributeError "item_type")
      | Some it =>
          match wrap it v with
          | inl msg => inl (BadValueException msg)
          | inr x => wrapped_items T rest (wrapped ++ [x])
          end
      end
  end.

(** [T.wrap(value)] read as a function. *)
Definition wrapped_value (T : field_type) (value : pyval) : exn + pyval :=
  match wrap T value with
  | inl msg => inl (BadValueException msg)
  | inr v => inr v
  end.

(** [T.child_type().wrap(value)] read as a function. *)
Definition wrapped_child_value (T : field_type) (value : pyval) : exn + pyval :=
  match child_type T with
  | None => inl (AttributeError "child_type")
  | Some ct => wrapped_value ct value
  end.

(** What the value side of a call evaluates to: the object that the final
    assignment stores, or the exception raised while computing it. *)
Definition encoded (c : call) : exn + pyval :=
  match c with
  | CallSet q v => wrapped_value (get_type q) v
  | CallInc q v => wrapped_value (get_type q) (default (PyInt 1) v)
  | CallAppend q v | CallRemove q v | CallAddToSet q v =>
      wrapped_child_value (get_type q) v
  | CallExtend q vs | CallRemoveAll q vs =>
      match wrapped_items (get_type q) vs [] with
      | inl e => inl e
      | inr _ => inr (PyTuple vs)
      end
  | CallUnset _ => inr (PyBool true)
  | CallPopLast _ => inr (PyInt 1)
  | CallPopFirst _ => inr (PyInt (-1))
  end.

(** The variadic calls compute their values before they touch
    [update_data]; the others after the operator's dictionary is ensured. *)
Definition variadic (c : call) : bool :=
  match c with
  | CallExtend _ _ | CallRemoveAll _ _ => true
  | _ => false
  end.

(** The single-value calls: one argument, passed through an encoder. *)
Definition single_value (c : call) : bool :=
  match c with
  | CallSet _ _ | CallInc _ _ | CallAppend _ _ | CallRemove _ _
  | CallAddToSet _ _ => true
  | _ => false
  end.

Definition raises {A} (r : (exn + A) * world) (e : exn) : Prop :=
  fst r = inl e.

Definition returns {A} (r : (exn + A) * world) (a : A) : Prop :=
  fst r = inr a.

(** The accumulated document of the builder at [self]. *)
Definition document (self : loc) (w : world)
    : option (gmap string (gmap string pyval)) :=
  update_data <$> objects w !! self.

(** Two worlds that hold the same object at [self]. *)
Definition agree (self : loc) (w1 w2 : world) : Prop :=
  objects w1 !! self = objects w2 !! self.

(** A computation that reads and writes nothing but the object at [self]. *)
Definition local (self : loc) {A} (m : M A) : Prop :=
  ∀ w1 w2, agree self w1 w2 →
    fst (m w1) = fst (m w2) ∧ agree self (snd (m w1)) (snd (m w2)).

(** Has [c] been called somewhere in a chain of flag calls? *)
Definition called (c : flag_call) (cs : list flag_call) : bool :=
  existsb (λ c', match c, c' with
                 | CallUpsert, CallUpsert | CallMulti, CallMulti => true
                 | _, _ => false
                 end) cs.

(** ** A session and some field types to run the builder on *)

(** Putting a command on the wire. *)
Definition send (c : command) : M unit :=
  λ w, (inr tt, World (objects w) (wire w ++ [c])).

(** Modelled from the spec: the session class, whose [execute_update]
    receives the builder, is not part of this module. The spec has it take
    the target selector, the accumulated operations and the two flags; this
    one reads them off the builder and appends them to the wire. *)
Definition transmit (s : positive) (update : loc) : M unit :=
  u ← load update;
  up ← get_upsert update;
  mu ← get_multi update;
  send {| cmd_session := s; cmd_query := query u;
          cmd_operations := update_data u;
          cmd_upsert := up; cmd_multi := mu |}.

(** A numeric field: [$set], [$unset] and [$inc]; wraps integers as they
    are and refuses anything else. *)
Definition IntField : field_type :=
  {| class_name := "IntField";
     valid_modifiers := ["$set"; "$unset"; "$inc"];
     wrap := λ v, match v with
                  | PyInt z => inr (PyInt z)
                  | _ => inl "Value is not an instance of int"
                  end;
     item_type := None;
     child_type := None |}.

(** A tuple field: wraps a tuple as the list the store keeps. *)
Definition TupleField : field_type :=
  {| class_name := "TupleField";
     valid_modifiers := ["$set"; "$unset"];
     wrap := λ v, match v with
                  | PyTuple items => inr (PyList items)
                  | _ => inl "Value is not an instance of tuple"
                  end;
     item_type := None;
     child_type := None |}.

(** A list field over items of type [item]. *)
Definition ListField (item : field_type) : field_type :=
  {| class_name := "ListField";
     valid_modifiers :=
       ["$set"; "$unset"; "$push"; "$pushAll"; "$pull"; "$pullAll";
        "$addToSet"; "$pop"];
     wrap := λ v, match v with
                  | PyList items => inr (PyList items)
                  | _ => inl "Value is not an instance of list"
                  end;
     item_type := Some item;
     child_type := Some item |}.

Definition count : QueryField := {| get_type := IntField; get_name := "count" |}.

Definition tags : QueryField :=
  {| get_type := ListField IntField; get_name := "tags" |}.

Definition pairs : QueryField :=
  {| get_type := ListField TupleField; get_name := "pairs" |}.

Definition q0 : Query := {| query_filter := PyNone; query_session := 7%positive |}.

Definition w0 : world := World ∅ [].

(** The world after [UpdateExpression(q0)] in [w0]; the builder is at 1. *)
Definition w1 : world := snd (new_UpdateExpression q0 w0).

(** ** Any method, and methods called one after another *)

Inductive method : Type :=
  | OpCall (c : call)
  | FlagCall (c : flag_call).

Definition run_method (self : loc) (m : method) : M loc :=
  match m with
  | OpCall c => run_call self c
  | FlagCall c => run_flag self c
  end.

(** The world after a caller made the calls [ms] on the builder one after
    another, going on after a call that raised. *)
Fixpoint after_methods (self : loc) (ms : list method) (w : world) : world :=
  match ms with
  | [] => w
  | m :: rest => after_methods self rest (snd (run_method self m w))
  end.

(** The flag setters among the calls [ms]. *)
Definition flags_of (ms : list method) : list flag_call :=
  omap (λ m, match m with FlagCall c => Some c | OpCall _ => None end) ms.

(** The builder an operator call leaves behind, whatever its outcome. *)
Definition call_effect (c : call) (u : UpdateExpression) : UpdateExpression :=
  if decide (call_op c ∈ valid_modifiers (get_type (call_qfield c))) then
    match encoded c with
    | inr v => stored (call_op c) (get_name (call_qfield c)) v u
    | inl _ => if variadic c then u else ensured (call_op c) u
    end
  else u.

(** The keys of [d] are keys of [d']: every operator of [d], and under it
    every field name. *)
Definition keys_within (d d' : gmap string (gmap string pyval)) : Prop :=
  ∀ op x, d !! op = Some x →
    ∃ x', d' !! op = Some x' ∧ ∀ name, is_Some (x !! name) → is_Some (x' !! name).

(** * Properties *)

(** ** Running computations *)

Lemma bind_run {A B} (m : M A) (k : A → M B) (w : world) :
  (m ≫= k) w = match m w with
               | (inl e, w') => (inl e, w')
               | (inr a, w') => k a w'
               end.
Proof. reflexivity. Qed.

Lemma load_run (self : loc) (u : UpdateExpression) (w : world) :
  objects w !! self = Some u → load self w = (inr u, w).
Proof. intros H. unfold load. by rewrite H. Qed.

Lemma store_run (self : loc) (u : UpdateExpression) (w : world) :
  store self u w = (inr tt, put self u w).
Proof. reflexivity. Qed.

Lemma objects_put (self : loc) (u : UpdateExpression) (w : world) :
  objects (put self u w) !! self = Some u.
Proof. apply lookup_insert_eq. Qed.

Lemma objects_put_ne (self l : loc) (u : UpdateExpression) (w : world) :
  self ≠ l → objects (put self u w) !! l = objects w !! l.
Proof. intros H. by apply lookup_insert_ne. Qed.

Lemma put_put (self : loc) (u1 u2 : UpdateExpression) (w : world) :
  put self u2 (put self u1 w) = put self u2 w.
Proof. unfold put. simpl. by rewrite insert_insert_eq. Qed.

Lemma put_same (self : loc) (u : UpdateExpression) (w : world) :
  objects w !! self = Some u → put self u w = w.
Proof. intros H. destruct w as [o t]. unfold put. simpl in *. by rewrite insert_id. Qed.

Lemma with_update_data_same (u : UpdateExpression) :
  with_update_data (update_data u) u = u.
Proof. by destruct u. Qed.

Lemma ensure_op_lookup (op : string) (d : gmap string (gmap string pyval)) :
  ensure_op op d !! op = Some (default ∅ (d !! op)).
Proof.
  unfold ensure_op. destruct (d !! op) as [x|] eqn:E; simpl.
  - exact E.
  - apply lookup_insert_eq.
Qed.

Lemma ensure_op_present (op : string) (d : gmap string (gmap string pyval)) :
  is_Some (d !! op) → ensure_op op d = d.
Proof. intros [x Hx]. unfold ensure_op. by rewrite Hx. Qed.

Lemma ensure_op_absent (op : string) (d : gmap string (gmap string pyval)) :
  d !! op = None → ensure_op op d = <[op := ∅]> d.
Proof. intros H. unfold ensure_op. by rewrite H. Qed.

Lemma entry_set_ensure_op (op name : string) (v : pyval)
    (d : gmap string (gmap string pyval)) :
  <[op := <[name := v]> (default ∅ (d !! op))]> (ensure_op op d)
  = entry_set op name v d.
Proof.
  unfold entry_set, ensure_op. destruct (d !! op); [done|].
  by rewrite insert_insert_eq.
Qed.

(** No field entry appears when an operator's dictionary is merely ensured. *)
Lemma entry_ensure_op (op op' name : string) (d : gmap string (gmap string pyval)) :
  entry op' name (ensure_op op d) = entry op' name d.
Proof.
  unfold entry, ensure_op. destruct (d !! op) eqn:E; [done|].
  destruct (decide (op = op')) as [->|Hne].
  - rewrite lookup_insert_eq, E. done.
  - by rewrite lookup_insert_ne.
Qed.

Lemma entry_entry_set (op name : string) (v : pyval)
    (d : gmap string (gmap string pyval)) :
  entry op name (entry_set op name v d) = Some v.
Proof.
  unfold entry, entry_set. rewrite lookup_insert_eq. simpl.
  apply lookup_insert_eq.
Qed.

(** The step shared by the four private methods: ensure the operator's
    dictionary. *)
Lemma ensure_run {A} (self : loc) (op : string) (k : unit → M A)
    (u : UpdateExpression) (w : world) :
  objects w !! self = Some u →
  (d ← getattr_update_data self;
   match d !! op with
   | None => update_data_setitem self op ∅
   | Some _ => mret tt
   end ≫= k) w
  = k tt (put self (ensured op u) w).
Proof.
  intros H. unfold getattr_update_data, update_data_setitem.
  rewrite !bind_run, (load_run _ _ _ H). simpl.
  unfold ensured, ensure_op.
  destruct (update_data u !! op) eqn:E; simpl.
  - by rewrite with_update_data_same, (put_same _ _ _ H).
  - by rewrite !bind_run, (load_run _ _ _ H).
Qed.

(** The final assignment, after the dictionary was ensured. *)
Lemma assign_run (self : loc) (op name : string) (v : pyval)
    (u : UpdateExpression) (w : world) :
  (update_data_setitem2 self op name v;; mret self) (put self (ensured op u) w)
  = (inr self, put self (stored op name v u) w).
Proof.
  unfold update_data_setitem2.
  rewrite !bind_run, (load_run _ _ _ (objects_put _ _ _)). simpl.
  rewrite ensure_op_lookup, store_run, put_put. simpl.
  by rewrite entry_set_ensure_op.
Qed.

(** ** The four private methods *)

(** The loop writes nothing: its outcome is [wrapped_items]. *)
Lemma wrap_each_run (T : field_type) (value wrapped : list pyval) (w : world) :
  wrap_each T value wrapped w = (wrapped_items T value wrapped, w).
Proof.
  revert wrapped. induction value as [|v rest IH]; intros wrapped; simpl.
  - reflexivity.
  - rewrite bind_run. unfold getattr_item_type.
    destruct (item_type T) as [it|]; simpl; [|reflexivity].
    rewrite bind_run. unfold call_wrap.
    destruct (wrap it v) as [msg|x]; simpl; [reflexivity|].
    apply IH.
Qed.

Section Private.
Context (self : loc) (op : string) (qfield : QueryField).

Local Abbreviation T := (get_type qfield).
Local Abbreviation name := (get_name qfield).

Section Invalid.
Hypothesis Hinvalid : op ∉ valid_modifiers T.

Lemma _atomic_op_invalid (value : pyval) (w : world) :
  _atomic_op self op qfield value w
  = (inl (new_InvalidModifierException T op), w).
Proof. unfold _atomic_op. by rewrite decide_True. Qed.

Lemma _atomic_list_op_invalid (value : pyval) (w : world) :
  _atomic_list_op self op qfield value w
  = (inl (new_InvalidModifierException T op), w).
Proof. unfold _atomic_list_op. by rewrite decide_True. Qed.

Lemma _atomic_generic_op_invalid (value : pyval) (w : world) :
  _atomic_generic_op self op qfield value w
  = (inl (new_InvalidModifierException T op), w).
Proof. unfold _atomic_generic_op. by rewrite decide_True. Qed.

Lemma _atomic_list_op_multivalue_invalid (value : list pyval) (w : world) :
  _atomic_list_op_multivalue self op qfield value w
  = (inl (new_InvalidModifierException T op), w).
Proof. unfold _atomic_list_op_multivalue. by rewrite decide_True. Qed.
End Invalid.

Section Valid.
Context (u : UpdateExpression) (w : world).
Hypothesis Hself : objects w !! self = Some u.
Hypothesis Hvalid : op ∈ valid_modifiers T.

Lemma _atomic_generic_op_valid (value : pyval) :
  _atomic_generic_op self op qfield value w
  = (inr self, put self (stored op name value u) w).
Proof.
  unfold _atomic_generic_op. rewrite decide_False by auto.
  rewrite (ensure_run _ _ _ _ _ Hself). apply assign_run.
Qed.

Lemma _atomic_op_valid (value : pyval) :
  _atomic_op self op qfield value w
  = match wrapped_value T value with
    | inr v => (inr self, put self (stored op name v u) w)
    | inl e => (inl e, put self (ensured op u) w)
    end.
Proof.
  unfold _atomic_op. rewrite decide_False by auto.
  rewrite (ensure_run _ _ _ _ _ Hself), bind_run.
  unfold call_wrap, wrapped_value.
  destruct (wrap T value) as [msg|v]; simpl; [reflexivity|].
  apply assign_run.
Qed.

Lemma _atomic_list_op_valid (value : pyval) :
  _atomic_list_op self op qfield value w
  = match wrapped_child_value T value with
    | inr v => (inr self, put self (stored op name v u) w)
    | inl e => (inl e, put self (ensured op u) w)
    end.
Proof.
  unfold _atomic_list_op. rewrite decide_False by auto.
  rewrite (ensure_run _ _ _ _ _ Hself), bind_run.
  unfold call_child_type, wrapped_child_value.
  destruct (child_type T) as [ct|]; simpl; [|reflexivity].
  rewrite bind_run. unfold call_wrap, wrapped_value.
  destruct (wrap ct value) as [msg|v]; simpl; [reflexivity|].
  apply assign_run.
Qed.

Lemma _atomic_list_op_multivalue_valid (value : list pyval) :
  _atomic_list_op_multivalue self op qfield value w
  = match wrapped_items T value [] with
    | inr _ => (inr self, put self (stored op name (PyTuple value) u) w)
    | inl e => (inl e, w)
    end.
Proof.
  unfold _atomic_list_op_multivalue. rewrite decide_False by auto.
  rewrite bind_run, wrap_each_run.
  destruct (wrapped_items T value []) as [e|wrapped]; [reflexivity|].
  rewrite (ensure_run _ _ _ _ _ Hself). apply assign_run.
Qed.
End Valid.
End Private.

(** ** Every operator call *)

Lemma run_call_invalid (self : loc) (c : call) (w : world) :
  call_op c ∉ valid_modifiers (get_type (call_qfield c)) →
  run_call self c w
  = (inl (new_InvalidModifierException (get_type (call_qfield c)) (call_op c)), w).
Proof.
  intros H. destruct c; simpl in *;
    first [ by apply _atomic_op_invalid
          | by apply _atomic_list_op_invalid
          | by apply _atomic_generic_op_invalid
          | by apply _atomic_list_op_multivalue_invalid ].
Qed.

Lemma run_call_valid (self : loc) (c : call) (u : UpdateExpression) (w : world) :
  objects w !! self = Some u →
  call_op c ∈ valid_modifiers (get_type (call_qfield c)) →
  run_call self c w
  = match encoded c with
    | inr v =>
        (inr self, put self (stored (call_op c) (get_name (call_qfield c)) v u) w)
    | inl e =>
        (inl e, if variadic c then w else put self (ensured (call_op c) u) w)
    end.
Proof.
  intros Hself Hvalid. destruct c; simpl in *.
  - by apply _atomic_op_valid.
  - by apply _atomic_generic_op_valid.
  - by apply _atomic_op_valid.
  - by apply _atomic_list_op_valid.
  - unfold extend. rewrite (_atomic_list_op_multivalue_valid _ _ _ u) by done.
    by destruct (wrapped_items _ _ _).
  - by apply _atomic_list_op_valid.
  - unfold remove_all. rewrite (_atomic_list_op_multivalue_valid _ _ _ u) by done.
    by destruct (wrapped_items _ _ _).
  - by apply _atomic_list_op_valid.
  - by apply _atomic_generic_op_valid.
  - by apply _atomic_generic_op_valid.
Qed.

(** What computing a value can raise: the encoder's [BadValueException], or
    the [AttributeError] of a type without the element encoder. *)
Lemma wrapped_items_exn (T : field_type) (value wrapped : list pyval) (e : exn) :
  wrapped_items T value wrapped = inl e →
  (∃ msg, e = BadValueException msg) ∨ (∃ a, e = AttributeError a).
Proof.
  revert wrapped. induction value as [|v rest IH]; intros wrapped; simpl.
  - discriminate.
  - destruct (item_type T) as [it|]; [|intros [= <-]; eauto].
    destruct (wrap it v) as [msg|x]; [intros [= <-]; eauto|]. apply IH.
Qed.

Lemma encoded_exn (c : call) (e : exn) :
  encoded c = inl e →
  (∃ msg, e = BadValueException msg) ∨ (∃ a, e = AttributeError a).
Proof.
  destruct c as [q v|q|q v|q v|q vs|q v|q vs|q v|q|q]; simpl;
    unfold wrapped_child_value, wrapped_value; try discriminate.
  - destruct (wrap _ _); intros [= <-]; eauto.
  - destruct (wrap _ _); intros [= <-]; eauto.
  - destruct (child_type _) as [ct|]; [|intros [= <-]; eauto].
    destruct (wrap _ _); intros [= <-]; eauto.
  - destruct (wrapped_items _ _ _) eqn:E; intros [= <-].
    by eapply wrapped_items_exn.
  - destruct (child_type _) as [ct|]; [|intros [= <-]; eauto].
    destruct (wrap _ _); intros [= <-]; eauto.
  - destruct (wrapped_items _ _ _) eqn:E; intros [= <-].
    by eapply wrapped_items_exn.
  - destruct (child_type _) as [ct|]; [|intros [= <-]; eauto].
    destruct (wrap _ _); intros [= <-]; eauto.
Qed.

Lemma entry_set_twice (op name : string) (v1 v2 : pyval)
    (d : gmap string (gmap string pyval)) :
  entry_set op name v2 (entry_set op name v1 d) = entry_set op name v2 d.
Proof.
  unfold entry_set. rewrite lookup_insert_eq. simpl.
  by rewrite !insert_insert_eq.
Qed.

Lemma entry_set_after_ensure (op name : string) (v : pyval)
    (d : gmap string (gmap string pyval)) :
  entry_set op name v (ensure_op op d) = entry_set op name v d.
Proof.
  unfold entry_set at 1. rewrite ensure_op_lookup. simpl.
  apply entry_set_ensure_op.
Qed.

Lemma document_put (self : loc) (u : UpdateExpression) (w : world) :
  document self (put self u w) = Some (update_data u).
Proof. unfold document. by rewrite objects_put. Qed.

(** ** Locality: the methods concern one object *)

Create HintDb local_db.

Lemma local_ret (self : loc) {A} (a : A) : local self (mret a : M A).
Proof. intros w1 w2 H. by split. Qed.

Lemma local_raise (self : loc) {A} (e : exn) : local self (raise e : M A).
Proof. intros w1 w2 H. by split. Qed.

Lemma local_bind (self : loc) {A B} (m : M A) (k : A → M B) :
  local self m → (∀ a, local self (k a)) → local self (m ≫= k).
Proof.
  intros Hm Hk w1 w2 H. rewrite !bind_run.
  destruct (Hm w1 w2 H) as [Hfst Hsnd].
  destruct (m w1) as [[e1|a1] w1'], (m w2) as [[e2|a2] w2']; simpl in *;
    try discriminate.
  - injection Hfst as ->. by split.
  - injection Hfst as ->. by apply Hk.
Qed.

Lemma local_load (self : loc) : local self (load self).
Proof.
  intros w1 w2 H. unfold load. rewrite H.
  by destruct (objects w2 !! self).
Qed.

Lemma local_store (self : loc) (u : UpdateExpression) : local self (store self u).
Proof.
  intros w1 w2 H. rewrite !store_run. split; [done|]. unfold agree.
  cbn [snd]. by rewrite !objects_put.
Qed.

Lemma local_call_wrap (self : loc) (T : field_type) (v : pyval) :
  local self (call_wrap T v).
Proof. unfold call_wrap. destruct (wrap T v); [apply local_raise|apply local_ret]. Qed.

Lemma local_wrap_each (self : loc) (T : field_type) (value wrapped : list pyval) :
  local self (wrap_each T value wrapped).
Proof. intros w1 w2 H. by rewrite !wrap_each_run. Qed.

#[local] Hint Resolve local_ret local_raise local_load local_store
  local_call_wrap local_wrap_each : local_db.

Ltac local_step :=
  match goal with
  | |- local _ (_ ≫= _) => apply local_bind; [|intros ?]
  | |- local _ (match ?x with _ => _ end) => destruct x
  | |- local _ _ => solve [auto with local_db]
  end.

Ltac solve_local := repeat local_step.

Lemma local__atomic_op self op qfield value :
  local self (_atomic_op self op qfield value).
Proof.
  unfold _atomic_op, getattr_update_data, update_data_setitem,
    update_data_setitem2. solve_local.
Qed.

Lemma local__atomic_list_op self op qfield value :
  local self (_atomic_list_op self op qfield value).
Proof.
  unfold _atomic_list_op, getattr_update_data, update_data_setitem,
    update_data_setitem2, call_child_type. solve_local.
Qed.

Lemma local__atomic_generic_op self op qfield value :
  local self (_atomic_generic_op self op qfield value).
Proof.
  unfold _atomic_generic_op, getattr_update_data, update_data_setitem,
    update_data_setitem2. solve_local.
Qed.

Lemma local__atomic_list_op_multivalue self op qfield value :
  local self (_atomic_list_op_multivalue self op qfield value).
Proof.
  unfold _atomic_list_op_multivalue, getattr_update_data, update_data_setitem,
    update_data_setitem2. solve_local.
Qed.

Lemma local_run_call (self : loc) (c : call) : local self (run_call self c).
Proof.
  destruct c; simpl;
    first [ apply local__atomic_op | apply local__atomic_list_op
          | apply local__atomic_generic_op
          | apply local__atomic_list_op_multivalue ].
Qed.

Lemma local_run_flag (self : loc) (c : flag_call) : local self (run_flag self c).
Proof. destruct c; simpl; unfold upsert, multi; solve_local. Qed.

(** ** Validation *)

(** C4: an operator call whose operator is not among the valid modifiers of
    the target field's type raises [InvalidModifierException] and leaves the
    world, hence the accumulated [update_data], exactly as it was. *)
Theorem invalid_modifier_changes_nothing (self : loc) (c : call) (w : world) :
  call_op c ∉ valid_modifiers (get_type (call_qfield c)) →
  run_call self c w
  = (inl (new_InvalidModifierException (get_type (call_qfield c)) (call_op c)), w)
  ∧ document self (snd (run_call self c w)) = document self w.
Proof.
  intros H. rewrite (run_call_invalid _ _ _ H). by split.
Qed.

(** The scenario of C4: on a fresh builder, [append(count, 1)] with [count]
    numeric fails, names [IntField] and [$push], and leaves the document
    empty. *)
Lemma invalid_modifier_changes_nothing_witness :
  ("$push" ∉ valid_modifiers (get_type count))
  ∧ append 1%positive count (PyInt 1) w1
    = (inl (InvalidModifierException "Invalid modifier for IntField field: $push"),
       w1)
  ∧ document 1%positive (snd (append 1%positive count (PyInt 1) w1)) = Some ∅.
Proof.
  assert (H : "$push" ∉ valid_modifiers (get_type count)).
  { apply (bool_decide_unpack _). vm_compute. reflexivity. }
  split; [exact H|].
  destruct (invalid_modifier_changes_nothing 1%positive
              (CallAppend count (PyInt 1)) w1 H) as [Hrun Hdoc].
  split; [exact Hrun|].
  transitivity (document 1%positive w1); [exact Hdoc|].
  vm_compute. reflexivity.
Defined.

(** C3, as amended: a call raises [InvalidModifierException], with the
    message naming the class of the field's type and the operator, exactly
    when the operator is not among the type's valid modifiers; it returns the
    builder exactly when the operator is valid and the value to store could
    be computed; with a valid operator the only exception is the one raised
    while computing that value. A type that declares no modifier accepts
    none. *)
Theorem call_outcome (self : loc) (c : call) (u : UpdateExpression) (w : world) :
  objects w !! self = Some u →
  (call_op c ∉ valid_modifiers (get_type (call_qfield c)) →
     run_call self c w
     = (inl (new_InvalidModifierException (get_type (call_qfield c)) (call_op c)),
        w))
  ∧ (∀ msg, raises (run_call self c w) (InvalidModifierException msg) →
       call_op c ∉ valid_modifiers (get_type (call_qfield c)))
  ∧ (returns (run_call self c w) self
     ↔ call_op c ∈ valid_modifiers (get_type (call_qfield c))
       ∧ ∃ v, encoded c = inr v)
  ∧ (call_op c ∈ valid_modifiers (get_type (call_qfield c)) →
     ∀ e, raises (run_call self c w) e → encoded c = inl e)
  ∧ (valid_modifiers (get_type (call_qfield c)) = [] →
     raises (run_call self c w)
       (new_InvalidModifierException (get_type (call_qfield c)) (call_op c))).
Proof.
  intros Hself.
  assert (Hvalid : call_op c ∈ valid_modifiers (get_type (call_qfield c)) →
            fst (run_call self c w)
            = match encoded c with inr _ => inr self | inl e => inl e end).
  { intros Hv. rewrite (run_call_valid _ _ _ _ Hself Hv).
    by destruct (encoded c). }
  split; [apply run_call_invalid|].
  split; [|split; [|split]].
  - intros msg Hraise Hv. unfold raises in Hraise.
    rewrite (Hvalid Hv) in Hraise.
    destruct (encoded c) as [e|v] eqn:E; [|discriminate].
    injection Hraise as ->.
    destruct (encoded_exn _ _ E) as [[m Hm]|[a Ha]]; discriminate.
  - unfold returns. split.
    + intros Hret.
      destruct (decide (call_op c ∈ valid_modifiers (get_type (call_qfield c))))
        as [Hv|Hn].
      * split; [exact Hv|]. rewrite (Hvalid Hv) in Hret.
        destruct (encoded c) as [e|v]; [discriminate|eauto].
      * rewrite (run_call_invalid _ _ _ Hn) in Hret. discriminate.
    + intros [Hv [v Henc]]. by rewrite (Hvalid Hv), Henc.
  - intros Hv e Hraise. unfold raises in Hraise.
    rewrite (Hvalid Hv) in Hraise.
    destruct (encoded c) as [e'|v]; [|discriminate]. by injection Hraise as ->.
  - intros Hempty. unfold raises. rewrite run_call_invalid; [done|].
    rewrite Hempty. apply not_elem_of_nil.
Qed.

(** [set(count, 5)] on a fresh builder: [$set] is valid for [IntField] and 5
    wraps, so the call returns the builder. *)
Lemma call_outcome_witness :
  objects w1 !! 1%positive = Some (UpdateExpression__init__ q0)
  ∧ returns (run_call 1%positive (CallSet count (PyInt 5)) w1) 1%positive.
Proof.
  assert (H : objects w1 !! 1%positive = Some (UpdateExpression__init__ q0)).
  { vm_compute. reflexivity. }
  split; [exact H|].
  destruct (call_outcome 1%positive (CallSet count (PyInt 5)) _ w1 H)
    as (_ & _ & Hret & _).
  apply Hret. split.
  - apply (bool_decide_unpack _). vm_compute. reflexivity.
  - exists (PyInt 5). reflexivity.
Defined.

(** C3, as stated, fails: [$set] is among the valid modifiers of [IntField],
    yet [set(count, 'five')] does not succeed, since [wrap] refuses the
    value; and the exception is not [InvalidModifierException]. *)
Lemma valid_modifier_call_fails :
  ("$set" ∈ valid_modifiers (get_type count))
  ∧ run_call 1%positive (CallSet count (PyStr "five")) w1
    = (inl (BadValueException "Value is not an instance of int"),
       put 1%positive (ensured "$set" (UpdateExpression__init__ q0)) w1)
  ∧ ¬ returns (run_call 1%positive (CallSet count (PyStr "five")) w1) 1%positive.
Proof.
  split; [apply (bool_decide_unpack _); vm_compute; reflexivity|].
  split; [vm_compute; reflexivity|].
  unfold returns. vm_compute. discriminate.
Qed.

(** ** What the calls store *)

(** C6: [unset] stores [True] under [$unset], [pop_last] stores 1 and
    [pop_first] stores -1 under [$pop], whatever the type of the field: the
    outcome mentions neither [wrap] nor the element type, and two fields of
    the same name get the same entry. *)
Theorem sentinels_stored_as_they_are (self : loc) (qfield : QueryField)
    (u : UpdateExpression) (w : world) :
  objects w !! self = Some u →
  ("$unset" ∈ valid_modifiers (get_type qfield) →
     unset self qfield w
     = (inr self, put self (stored "$unset" (get_name qfield) (PyBool true) u) w)
     ∧ entry "$unset" (get_name qfield)
         (entry_set "$unset" (get_name qfield) (PyBool true) (update_data u))
       = Some (PyBool true))
  ∧ ("$pop" ∈ valid_modifiers (get_type qfield) →
     pop_last self qfield w
     = (inr self, put self (stored "$pop" (get_name qfield) (PyInt 1) u) w)
     ∧ pop_first self qfield w
       = (inr self, put self (stored "$pop" (get_name qfield) (PyInt (-1)) u) w)
     ∧ entry "$pop" (get_name qfield)
         (entry_set "$pop" (get_name qfield) (PyInt 1) (update_data u))
       = Some (PyInt 1)
     ∧ entry "$pop" (get_name qfield)
         (entry_set "$pop" (get_name qfield) (PyInt (-1)) (update_data u))
       = Some (PyInt (-1)))
  ∧ (∀ qfield', get_name qfield' = get_name qfield →
     ("$unset" ∈ valid_modifiers (get_type qfield) →
      "$unset" ∈ valid_modifiers (get_type qfield') →
      unset self qfield' w = unset self qfield w)
     ∧ ("$pop" ∈ valid_modifiers (get_type qfield) →
        "$pop" ∈ valid_modifiers (get_type qfield') →
        pop_last self qfield' w = pop_last self qfield w
        ∧ pop_first self qfield' w = pop_first self qfield w)).
Proof.
  intros Hself. unfold unset, pop_last, pop_first.
  split; [|split].
  - intros Hv. split; [by apply _atomic_generic_op_valid|].
    apply entry_entry_set.
  - intros Hv. split; [by apply _atomic_generic_op_valid|].
    split; [by apply _atomic_generic_op_valid|].
    split; apply entry_entry_set.
  - intros qfield' Hname. split.
    + intros Hv Hv'.
      rewrite (_atomic_generic_op_valid _ _ _ u w Hself Hv),
        (_atomic_generic_op_valid _ _ _ u w Hself Hv').
      by rewrite Hname.
    + intros Hv Hv'.
      rewrite !(_atomic_generic_op_valid _ _ qfield u w Hself Hv),
        !(_atomic_generic_op_valid _ _ qfield' u w Hself Hv').
      by rewrite Hname.
Qed.

(** On a fresh builder, [pop_first(tags)] leaves [{'$pop': {'tags': -1}}]. *)
Lemma sentinels_stored_as_they_are_witness :
  objects w1 !! 1%positive = Some (UpdateExpression__init__ q0)
  ∧ ("$pop" ∈ valid_modifiers (get_type tags))
  ∧ pop_first 1%positive tags w1
    = (inr 1%positive,
       put 1%positive
         (stored "$pop" "tags" (PyInt (-1)) (UpdateExpression__init__ q0)) w1)
  ∧ document 1%positive (snd (pop_first 1%positive tags w1))
    = Some {[ "$pop" := {[ "tags" := PyInt (-1) ]} ]}.
Proof.
  assert (H : objects w1 !! 1%positive = Some (UpdateExpression__init__ q0)).
  { vm_compute. reflexivity. }
  assert (Hv : "$pop" ∈ valid_modifiers (get_type tags)).
  { apply (bool_decide_unpack _). vm_compute. reflexivity. }
  split; [exact H|]. split; [exact Hv|].
  destruct (sentinels_stored_as_they_are 1%positive tags _ w1 H)
    as (_ & Hpop & _).
  destruct (Hpop Hv) as (_ & Hfirst & _).
  split; [exact Hfirst|].
  rewrite Hfirst. vm_compute. reflexivity.
Defined.

(** C8: a variadic call with no value succeeds and stores the empty
    sequence of its arguments under the operator and the field's name. *)
Theorem variadic_without_values (self : loc) (qfield : QueryField)
    (u : UpdateExpression) (w : world) :
  objects w !! self = Some u →
  ("$pushAll" ∈ valid_modifiers (get_type qfield) →
     extend self qfield [] w
     = (inr self, put self (stored "$pushAll" (get_name qfield) (PyTuple []) u) w)
     ∧ entry "$pushAll" (get_name qfield)
         (entry_set "$pushAll" (get_name qfield) (PyTuple []) (update_data u))
       = Some (PyTuple []))
  ∧ ("$pullAll" ∈ valid_modifiers (get_type qfield) →
     remove_all self qfield [] w
     = (inr self, put self (stored "$pullAll" (get_name qfield) (PyTuple []) u) w)
     ∧ entry "$pullAll" (get_name qfield)
         (entry_set "$pullAll" (get_name qfield) (PyTuple []) (update_data u))
       = Some (PyTuple [])).
Proof.
  intros Hself. unfold extend, remove_all.
  split; intros Hv;
    (split; [by rewrite (_atomic_list_op_multivalue_valid _ _ _ u w Hself Hv)
            | apply entry_entry_set]).
Qed.

(** On a fresh builder, [extend(tags)] leaves [{'$pushAll': {'tags': ()}}]. *)
Lemma variadic_without_values_witness :
  objects w1 !! 1%positive = Some (UpdateExpression__init__ q0)
  ∧ ("$pushAll" ∈ valid_modifiers (get_type tags))
  ∧ fst (extend 1%positive tags [] w1) = inr 1%positive
  ∧ document 1%positive (snd (extend 1%positive tags [] w1))
    = Some {[ "$pushAll" := {[ "tags" := PyTuple [] ]} ]}.
Proof.
  assert (H : objects w1 !! 1%positive = Some (UpdateExpression__init__ q0)).
  { vm_compute. reflexivity. }
  assert (Hv : "$pushAll" ∈ valid_modifiers (get_type tags)).
  { apply (bool_decide_unpack _). vm_compute. reflexivity. }
  split; [exact H|]. split; [exact Hv|].
  destruct (variadic_without_values 1%positive tags _ w1 H) as [Hext _].
  destruct (Hext Hv) as [Hrun _].
  rewrite Hrun. split; [reflexivity|]. vm_compute. reflexivity.
Defined.

(** C5: after [set(f, v1)] and then [set(f, v2)], the builder is exactly
    what [set(f, v2)] alone would have made it: [update_data['$set'][f]] is
    the wrapped [v2], and nothing of [v1] remains. This holds whether the
    second call is chained on the first or made after it. *)
Theorem set_last_write_wins (self : loc) (qfield : QueryField)
    (v1 v2 e2 : pyval) (u : UpdateExpression) (w : world) :
  objects w !! self = Some u →
  "$set" ∈ valid_modifiers (get_type qfield) →
  wrap (get_type qfield) v2 = inr e2 →
  set self qfield v2 (snd (set self qfield v1 w))
  = (inr self, put self (stored "$set" (get_name qfield) e2 u) w)
  ∧ set self qfield v2 (snd (set self qfield v1 w)) = set self qfield v2 w
  ∧ (∀ e1, wrap (get_type qfield) v1 = inr e1 →
     (r ← set self qfield v1; set r qfield v2) w = set self qfield v2 w)
  ∧ update_data (stored "$set" (get_name qfield) e2 u) !! "$set"
    = Some (<[get_name qfield := e2]> (default ∅ (update_data u !! "$set")))
  ∧ entry "$set" (get_name qfield)
      (update_data (stored "$set" (get_name qfield) e2 u))
    = Some e2.
Proof.
  intros Hself Hv He2. unfold set.
  assert (Halone : _atomic_op self "$set" qfield v2 w
            = (inr self, put self (stored "$set" (get_name qfield) e2 u) w)).
  { rewrite (_atomic_op_valid _ _ _ u w Hself Hv).
    unfold wrapped_value. by rewrite He2. }
  assert (Hafter : _atomic_op self "$set" qfield v2
                     (snd (_atomic_op self "$set" qfield v1 w))
            = (inr self, put self (stored "$set" (get_name qfield) e2 u) w)).
  { rewrite (_atomic_op_valid _ _ _ u w Hself Hv).
    destruct (wrapped_value (get_type qfield) v1) as [e|e1]; cbn [snd].
    - rewrite (_atomic_op_valid _ _ _ _ _ (objects_put _ _ _) Hv).
      unfold wrapped_value. rewrite He2, put_put.
      unfold stored, ensured. cbn [update_data with_update_data].
      by rewrite entry_set_after_ensure.
    - rewrite (_atomic_op_valid _ _ _ _ _ (objects_put _ _ _) Hv).
      unfold wrapped_value. rewrite He2, put_put.
      unfold stored. cbn [update_data with_update_data].
      by rewrite entry_set_twice. }
  split; [exact Hafter|]. split; [by rewrite Hafter, Halone|].
  split; [|split].
  - intros e1 He1. rewrite bind_run.
    pose proof (_atomic_op_valid self "$set" qfield u w Hself Hv v1) as H1.
    unfold wrapped_value in H1. rewrite He1 in H1.
    rewrite <- Hafter in Halone. rewrite Halone, H1. reflexivity.
  - unfold stored, entry_set. cbn [update_data with_update_data].
    apply lookup_insert_eq.
  - apply entry_entry_set.
Qed.

(** [set(count, 5)] then [set(count, 9)] on a fresh builder leaves
    [{'$set': {'count': 9}}]. *)
Lemma set_last_write_wins_witness :
  objects w1 !! 1%positive = Some (UpdateExpression__init__ q0)
  ∧ ("$set" ∈ valid_modifiers (get_type count))
  ∧ wrap (get_type count) (PyInt 9) = inr (PyInt 9)
  ∧ document 1%positive
      (snd (set 1%positive count (PyInt 9)
              (snd (set 1%positive count (PyInt 5) w1))))
    = Some {[ "$set" := {[ "count" := PyInt 9 ]} ]}.
Proof.
  assert (H : objects w1 !! 1%positive = Some (UpdateExpression__init__ q0)).
  { vm_compute. reflexivity. }
  assert (Hv : "$set" ∈ valid_modifiers (get_type count)).
  { apply (bool_decide_unpack _). vm_compute. reflexivity. }
  split; [exact H|]. split; [exact Hv|]. split; [reflexivity|].
  destruct (set_last_write_wins 1%positive count (PyInt 5) (PyInt 9) (PyInt 9)
              _ w1 H Hv eq_refl) as [Hrun _].
  rewrite Hrun. vm_compute. reflexivity.
Defined.

(** C10: when a single-value call uses a valid operator and computing the
    value to store raises, the exception leaves the builder with the
    operator's dictionary ensured and nothing else: no entry [op'][name]
    is added or changed, the world is untouched when the operator was
    already a key, and an empty dictionary stays behind under the operator
    when it was not, so that the document differs from what it was. *)
Theorem encoder_failure_leaves_empty_dict (self : loc) (c : call) (e : exn)
    (u : UpdateExpression) (w : world) :
  objects w !! self = Some u →
  single_value c = true →
  call_op c ∈ valid_modifiers (get_type (call_qfield c)) →
  encoded c = inl e →
  run_call self c w = (inl e, put self (ensured (call_op c) u) w)
  ∧ (∀ op' name, entry op' name (update_data (ensured (call_op c) u))
                 = entry op' name (update_data u))
  ∧ (is_Some (update_data u !! call_op c) →
     put self (ensured (call_op c) u) w = w)
  ∧ (update_data u !! call_op c = None →
     update_data (ensured (call_op c) u) = <[call_op c := ∅]> (update_data u)
     ∧ update_data (ensured (call_op c) u) !! call_op c = Some ∅
     ∧ document self (snd (run_call self c w)) ≠ document self w).
Proof.
  intros Hself Hsingle Hv Henc.
  assert (Hrun : run_call self c w = (inl e, put self (ensured (call_op c) u) w)).
  { rewrite (run_call_valid _ _ _ _ Hself Hv), Henc.
    destruct c; simpl in Hsingle; try discriminate; reflexivity. }
  split; [exact Hrun|]. split; [|split].
  - intros op' name. apply entry_ensure_op.
  - intros Hsome. unfold ensured. rewrite ensure_op_present by done.
    rewrite with_update_data_same. by apply put_same.
  - intros Hnone. unfold ensured. cbn [update_data with_update_data].
    rewrite (ensure_op_absent _ _ Hnone).
    split; [reflexivity|]. split; [apply lookup_insert_eq|].
    rewrite Hrun. cbn [snd]. rewrite document_put. unfold document.
    rewrite Hself. simpl. rewrite (ensure_op_absent _ _ Hnone).
    intros [= Heq].
    assert (Hl : <[call_op c := ∅]> (update_data u) !! call_op c = Some ∅)
      by apply lookup_insert_eq.
    rewrite Heq, Hnone in Hl. discriminate.
Qed.

(** [set(count, 'five')] on a fresh builder raises from [wrap] and leaves
    [{'$set': {}}] behind. *)
Lemma encoder_failure_leaves_empty_dict_witness :
  objects w1 !! 1%positive = Some (UpdateExpression__init__ q0)
  ∧ ("$set" ∈ valid_modifiers (get_type count))
  ∧ encoded (CallSet count (PyStr "five"))
    = inl (BadValueException "Value is not an instance of int")
  ∧ fst (set 1%positive count (PyStr "five") w1)
    = inl (BadValueException "Value is not an instance of int")
  ∧ document 1%positive (snd (set 1%positive count (PyStr "five") w1))
    = Some {[ "$set" := ∅ ]}.
Proof.
  assert (H : objects w1 !! 1%positive = Some (UpdateExpression__init__ q0)).
  { vm_compute. reflexivity. }
  assert (Hv : "$set" ∈ valid_modifiers (get_type count)).
  { apply (bool_decide_unpack _). vm_compute. reflexivity. }
  split; [exact H|]. split; [exact Hv|]. split; [reflexivity|].
  destruct (encoder_failure_leaves_empty_dict 1%positive
              (CallSet count (PyStr "five")) _ _ w1 H eq_refl Hv eq_refl)
    as [Hrun _].
  change (run_call 1%positive (CallSet count (PyStr "five")) w1)
    with (set 1%positive count (PyStr "five") w1) in Hrun.
  rewrite Hrun. split; [reflexivity|]. vm_compute. reflexivity.
Defined.

(** ** Flags *)

Lemma called_elem_of (c : flag_call) (cs : list flag_call) :
  c ∈ cs → called c cs = true.
Proof.
  intros H. unfold called. apply existsb_exists. exists c.
  split; [by apply list_elem_of_In|]. by destruct c.
Qed.

Lemma upsert_run (self : loc) (u : UpdateExpression) (w : world) :
  objects w !! self = Some u →
  upsert self w = (inr self, put self (with_upsert true u) w).
Proof.
  intros H. unfold upsert, mbind, M_bind, bind, load, store. by rewrite H.
Qed.

Lemma multi_run (self : loc) (u : UpdateExpression) (w : world) :
  objects w !! self = Some u →
  multi self w = (inr self, put self (with_multi true u) w).
Proof.
  intros H. unfold multi, mbind, M_bind, bind, load, store. by rewrite H.
Qed.

Lemma run_flags_run (self : loc) (cs : list flag_call) :
  ∀ (u : UpdateExpression) (w : world),
    objects w !! self = Some u →
    run_flags self cs w
    = (inr self,
       put self
         (with_multi (__multi u || called CallMulti cs)
            (with_upsert (__upsert u || called CallUpsert cs) u)) w).
Proof.
  induction cs as [|c rest IH]; intros u w Hself.
  - simpl. rewrite !orb_false_r.
    replace (with_multi (__multi u) (with_upsert (__upsert u) u)) with u
      by (by destruct u).
    by rewrite (put_same _ _ _ Hself).
  - cbn [run_flags]. rewrite bind_run.
    destruct c; cbn [run_flag];
      rewrite ?(upsert_run _ _ _ Hself), ?(multi_run _ _ _ Hself);
      rewrite (IH _ _ (objects_put _ _ _)), put_put;
      do 2 f_equal; destruct u as [q s d up mu]; unfold with_multi, with_upsert;
      simpl; f_equal; by rewrite ?orb_true_r.
Qed.

(** C7: any chain of [upsert()] and [multi()] calls returns the builder it
    was started on, leaves each flag true if it was true or its setter was
    called, and changes nothing else: not [update_data], not another object,
    not the wire. A new builder has both flags false and an empty document. *)
Theorem flags_are_independent (self : loc) (cs : list flag_call)
    (u : UpdateExpression) (w : world) :
  objects w !! self = Some u →
  returns (run_flags self cs w) self
  ∧ get_upsert self (snd (run_flags self cs w))
    = (inr (__upsert u || called CallUpsert cs), snd (run_flags self cs w))
  ∧ get_multi self (snd (run_flags self cs w))
    = (inr (__multi u || called CallMulti cs), snd (run_flags self cs w))
  ∧ (CallUpsert ∈ cs → fst (get_upsert self (snd (run_flags self cs w))) = inr true)
  ∧ (CallMulti ∈ cs → fst (get_multi self (snd (run_flags self cs w))) = inr true)
  ∧ document self (snd (run_flags self cs w)) = Some (update_data u)
  ∧ (∀ l, l ≠ self → objects (snd (run_flags self cs w)) !! l = objects w !! l)
  ∧ wire (snd (run_flags self cs w)) = wire w
  ∧ (∀ q, fst (get_upsert (fresh (dom (objects w))) (snd (new_UpdateExpression q w)))
          = inr false
          ∧ fst (get_multi (fresh (dom (objects w))) (snd (new_UpdateExpression q w)))
            = inr false
          ∧ document (fresh (dom (objects w))) (snd (new_UpdateExpression q w))
            = Some ∅
          ∧ fst (new_UpdateExpression q w) = inr (fresh (dom (objects w)))
          ∧ objects w !! fresh (dom (objects w)) = None).
Proof.
  intros Hself. rewrite (run_flags_run _ _ _ _ Hself). cbn [fst snd].
  assert (Hup : get_upsert self
                  (put self (with_multi (__multi u || called CallMulti cs)
                     (with_upsert (__upsert u || called CallUpsert cs) u)) w)
                = (inr (__upsert u || called CallUpsert cs),
                   put self (with_multi (__multi u || called CallMulti cs)
                     (with_upsert (__upsert u || called CallUpsert cs) u)) w)).
  { unfold get_upsert. by rewrite bind_run, (load_run _ _ _ (objects_put _ _ _)). }
  assert (Hmu : get_multi self
                  (put self (with_multi (__multi u || called CallMulti cs)
                     (with_upsert (__upsert u || called CallUpsert cs) u)) w)
                = (inr (__multi u || called CallMulti cs),
                   put self (with_multi (__multi u || called CallMulti cs)
                     (with_upsert (__upsert u || called CallUpsert cs) u)) w)).
  { unfold get_multi. by rewrite bind_run, (load_run _ _ _ (objects_put _ _ _)). }
  split; [reflexivity|]. split; [exact Hup|]. split; [exact Hmu|].
  split; [|split; [|split; [|split; [|split]]]].
  - intros Hin. rewrite Hup. cbn [fst].
    by rewrite (called_elem_of _ _ Hin), orb_true_r.
  - intros Hin. rewrite Hmu. cbn [fst].
    by rewrite (called_elem_of _ _ Hin), orb_true_r.
  - by rewrite document_put.
  - intros l Hl. by apply objects_put_ne.
  - reflexivity.
  - intros q. unfold new_UpdateExpression, get_upsert, get_multi, document.
    cbn [fst snd objects]. rewrite !bind_run. unfold load. cbn [objects].
    rewrite !lookup_insert_eq. cbn.
    repeat split. apply not_elem_of_dom, is_fresh.
Qed.

(** [upsert().multi().upsert()] on a fresh builder sets both flags and
    leaves the document empty. *)
Lemma flags_are_independent_witness :
  objects w1 !! 1%positive = Some (UpdateExpression__init__ q0)
  ∧ returns (run_flags 1%positive [CallUpsert; CallMulti; CallUpsert] w1) 1%positive
  ∧ fst (get_upsert 1%positive
           (snd (run_flags 1%positive [CallUpsert; CallMulti; CallUpsert] w1)))
    = inr true
  ∧ document 1%positive
      (snd (run_flags 1%positive [CallUpsert; CallMulti; CallUpsert] w1))
    = Some ∅.
Proof.
  assert (H : objects w1 !! 1%positive = Some (UpdateExpression__init__ q0)).
  { vm_compute. reflexivity. }
  split; [exact H|].
  destruct (flags_are_independent 1%positive [CallUpsert; CallMulti; CallUpsert]
              _ w1 H) as (Hret & _ & _ & Hup & _ & Hdoc & _).
  split; [exact Hret|]. split; [|exact Hdoc].
  apply Hup. apply list_elem_of_here.
Defined.

(** ** Execution *)

(** C9, as amended: [execute()] hands the builder to the session's
    [execute_update] and does nothing else; it marks nothing as finalized.
    With a session that leaves the builder as it is, every later operator or
    flag call is accepted or refused, and changes the builder, exactly as it
    would have before [execute()]. *)
Theorem execute_does_not_finalize (execute_update : positive → loc → M unit)
    (self : loc) (u : UpdateExpression) (w : world) :
  objects w !! self = Some u →
  (∀ s w', agree self (snd (execute_update s self w')) w') →
  execute execute_update self w = execute_update (session u) self w
  ∧ objects (snd (execute execute_update self w)) !! self = Some u
  ∧ (∀ c : call,
       fst (run_call self c (snd (execute execute_update self w)))
       = fst (run_call self c w)
       ∧ agree self (snd (run_call self c (snd (execute execute_update self w))))
           (snd (run_call self c w)))
  ∧ (∀ c : flag_call,
       fst (run_flag self c (snd (execute execute_update self w)))
       = fst (run_flag self c w)
       ∧ agree self (snd (run_flag self c (snd (execute execute_update self w))))
           (snd (run_flag self c w))).
Proof.
  intros Hself Hframe.
  assert (Hexec : execute execute_update self w
                  = execute_update (session u) self w).
  { unfold execute. by rewrite bind_run, (load_run _ _ _ Hself). }
  assert (Hagree : agree self (snd (execute execute_update self w)) w).
  { rewrite Hexec. apply Hframe. }
  split; [exact Hexec|]. split; [by rewrite Hagree|].
  split; intros c.
  - by apply local_run_call.
  - by apply local_run_flag.
Qed.

Lemma transmit_objects (s : positive) (update : loc) (w : world) :
  objects (snd (transmit s update w)) = objects w.
Proof.
  unfold transmit, get_upsert, get_multi, send.
  rewrite bind_run. unfold load at 1.
  destruct (objects w !! update) as [u|] eqn:E; [|reflexivity].
  rewrite !bind_run, (load_run _ _ _ E). cbn [mret M_ret ret].
  rewrite !bind_run, (load_run _ _ _ E). reflexivity.
Qed.

(** The recording session writes to the wire only. *)
Lemma execute_does_not_finalize_witness :
  objects w1 !! 1%positive = Some (UpdateExpression__init__ q0)
  ∧ (∀ s w', agree 1%positive (snd (transmit s 1%positive w')) w')
  ∧ fst (run_call 1%positive (CallSet count (PyInt 5))
           (snd (execute transmit 1%positive w1)))
    = fst (run_call 1%positive (CallSet count (PyInt 5)) w1).
Proof.
  assert (H : objects w1 !! 1%positive = Some (UpdateExpression__init__ q0)).
  { vm_compute. reflexivity. }
  assert (Hframe : ∀ s w', agree 1%positive (snd (transmit s 1%positive w')) w').
  { intros s w'. unfold agree. by rewrite transmit_objects. }
  split; [exact H|]. split; [exact Hframe|].
  destruct (execute_does_not_finalize transmit 1%positive _ w1 H Hframe)
    as (_ & _ & Hcalls & _).
  apply Hcalls.
Defined.

(** C9, as stated, fails: a fresh builder is executed, its command goes out,
    and then [set(count, 5)] is accepted and changes [update_data]; executed
    again, the builder sends a second, different command. *)
Lemma executed_builder_accepts_calls :
  execute transmit 1%positive w1
  = (inr tt,
     World (objects w1)
       [ {| cmd_session := 7; cmd_query := q0; cmd_operations := ∅;
            cmd_upsert := false; cmd_multi := false |} ])
  ∧ document 1%positive (snd (execute transmit 1%positive w1)) = Some ∅
  ∧ fst (set 1%positive count (PyInt 5) (snd (execute transmit 1%positive w1)))
    = inr 1%positive
  ∧ document 1%positive
      (snd (set 1%positive count (PyInt 5)
              (snd (execute transmit 1%positive w1))))
    = Some {[ "$set" := {[ "count" := PyInt 5 ]} ]}
  ∧ wire (snd ((execute transmit 1%positive;;
                r ← set 1%positive count (PyInt 5);
                execute transmit r) w1))
    = [ {| cmd_session := 7; cmd_query := q0; cmd_operations := ∅;
           cmd_upsert := false; cmd_multi := false |};
        {| cmd_session := 7; cmd_query := q0;
           cmd_operations := {[ "$set" := {[ "count" := PyInt 5 ]} ]};
           cmd_upsert := false; cmd_multi := false |} ].
Proof. repeat split; vm_compute; reflexivity. Qed.

(** ** Where the code departs from what is asked of it *)

(** C1: no conflict is detected. After [set(count, 5)] the field is targeted
    by [$set]; [inc(count)] on the same builder then returns normally instead
    of raising, and the document holds the field under both operators. *)
Lemma conflicting_modifiers_accepted :
  document 1%positive (snd (set 1%positive count (PyInt 5) w1))
  = Some {[ "$set" := {[ "count" := PyInt 5 ]} ]}
  ∧ fst (inc 1%positive count None (snd (set 1%positive count (PyInt 5) w1)))
    = inr 1%positive
  ∧ document 1%positive
      (snd (inc 1%positive count None (snd (set 1%positive count (PyInt 5) w1))))
    = Some {[ "$set" := {[ "count" := PyInt 5 ]};
              "$inc" := {[ "count" := PyInt 1 ]} ]}
  ∧ document 1%positive
      (snd (inc 1%positive count None (snd (set 1%positive count (PyInt 5) w1))))
    ≠ document 1%positive (snd (set 1%positive count (PyInt 5) w1)).
Proof.
  split; [vm_compute; reflexivity|]. split; [vm_compute; reflexivity|].
  split; [vm_compute; reflexivity|].
  intros H. apply (f_equal (λ d, d ≫= (.!! "$inc"))) in H.
  vm_compute in H. discriminate.
Qed.

(** C2: the values are wrapped one by one and the result is dropped: what
    [extend] and [remove_all] store is the tuple of the arguments as they
    were passed. With items that are tuples, wrapped as lists, the entry is
    [((1, 2), (3, 4), (5, 6))] and not [[[1, 2], [3, 4], [5, 6]]]. *)
Lemma variadic_stores_raw_arguments :
  wrapped_items (get_type pairs)
    [PyTuple [PyInt 1; PyInt 2]; PyTuple [PyInt 3; PyInt 4];
     PyTuple [PyInt 5; PyInt 6]] []
  = inr [PyList [PyInt 1; PyInt 2]; PyList [PyInt 3; PyInt 4];
         PyList [PyInt 5; PyInt 6]]
  ∧ fst (extend 1%positive pairs
           [PyTuple [PyInt 1; PyInt 2]; PyTuple [PyInt 3; PyInt 4];
            PyTuple [PyInt 5; PyInt 6]] w1)
    = inr 1%positive
  ∧ document 1%positive
      (snd (extend 1%positive pairs
              [PyTuple [PyInt 1; PyInt 2]; PyTuple [PyInt 3; PyInt 4];
               PyTuple [PyInt 5; PyInt 6]] w1))
    = Some {[ "$pushAll" :=
                {[ "pairs" :=
                     PyTuple [PyTuple [PyInt 1; PyInt 2];
                              PyTuple [PyInt 3; PyInt 4];
                              PyTuple [PyInt 5; PyInt 6]] ]} ]}
  ∧ document 1%positive
      (snd (remove_all 1%positive pairs
              [PyTuple [PyInt 1; PyInt 2]; PyTuple [PyInt 3; PyInt 4];
               PyTuple [PyInt 5; PyInt 6]] w1))
    = Some {[ "$pullAll" :=
                {[ "pairs" :=
                     PyTuple [PyTuple [PyInt 1; PyInt 2];
                              PyTuple [PyInt 3; PyInt 4];
                              PyTuple [PyInt 5; PyInt 6]] ]} ]}
  ∧ [PyTuple [PyInt 1; PyInt 2]; PyTuple [PyInt 3; PyInt 4];
     PyTuple [PyInt 5; PyInt 6]]
    ≠ [PyList [PyInt 1; PyInt 2]; PyList [PyInt 3; PyInt 4];
       PyList [PyInt 5; PyInt 6]].
Proof.
  split; [reflexivity|]. split; [vm_compute; reflexivity|].
  split; [vm_compute; reflexivity|]. split; [vm_compute; reflexivity|].
  discriminate.
Qed.

(** * Further properties of the accumulator *)

(** ** Reading back what a call stored *)

Lemma entry_entry_set_ne (op name op' name' : string) (v : pyval)
    (d : gmap string (gmap string pyval)) :
  op' ≠ op ∨ name' ≠ name →
  entry op' name' (entry_set op name v d) = entry op' name' d.
Proof.
  intros H. unfold entry, entry_set.
  destruct (decide (op = op')) as [<-|Hop].
  - destruct H as [H|H]; [done|].
    rewrite lookup_insert_eq. simpl. rewrite lookup_insert_ne by done.
    by destruct (d !! op).
  - by rewrite lookup_insert_ne.
Qed.

Lemma run_call_world (self : loc) (c : call) (u : UpdateExpression) (w : world) :
  objects w !! self = Some u →
  snd (run_call self c w) = put self (call_effect c u) w.
Proof.
  intros Hself. unfold call_effect.
  destruct (decide (call_op c ∈ valid_modifiers (get_type (call_qfield c))))
    as [Hv|Hn].
  - rewrite (run_call_valid _ _ _ _ Hself Hv).
    destruct (encoded c); [|done]. cbn [snd].
    destruct (variadic c); [|done]. by rewrite (put_same _ _ _ Hself).
  - rewrite (run_call_invalid _ _ _ Hn). cbn [snd].
    by rewrite (put_same _ _ _ Hself).
Qed.

Lemma call_effect_shape (c : call) (u : UpdateExpression) :
  call_effect c u = with_update_data (update_data (call_effect c u)) u.
Proof.
  unfold call_effect. destruct (decide _); [|by destruct u].
  destruct (encoded c); [|done]. destruct (variadic c); [by destruct u|done].
Qed.

(** X1: after a call that returned, the builder's document holds the stored
    value under the call's operator and field name, and every other entry is
    what it was. *)
Theorem stored_value_is_read_back (self : loc) (c : call) (v : pyval)
    (u : UpdateExpression) (w : world) :
  objects w !! self = Some u →
  call_op c ∈ valid_modifiers (get_type (call_qfield c)) →
  encoded c = inr v →
  ∃ d, document self (snd (run_call self c w)) = Some d
    ∧ entry (call_op c) (get_name (call_qfield c)) d = Some v
    ∧ ∀ op' name', op' ≠ call_op c ∨ name' ≠ get_name (call_qfield c) →
        entry op' name' d = entry op' name' (update_data u).
Proof.
  intros Hself Hv Henc.
  rewrite (run_call_valid _ _ _ _ Hself Hv), Henc. cbn [snd].
  eexists. split; [apply document_put|].
  unfold stored. cbn [update_data with_update_data]. split.
  - apply entry_entry_set.
  - intros op' name' H. by apply entry_entry_set_ne.
Qed.

(** [append(tags, 4)] after [set(count, 5)]: the new entry is there and the
    old one is still read. *)
Lemma stored_value_is_read_back_witness :
  ∃ d, document 1%positive
         (snd (run_call 1%positive (CallAppend tags (PyInt 4))
                 (snd (set 1%positive count (PyInt 5) w1)))) = Some d
    ∧ entry "$push" "tags" d = Some (PyInt 4)
    ∧ entry "$set" "count" d = Some (PyInt 5).
Proof.
  assert (H : objects (snd (set 1%positive count (PyInt 5) w1)) !! 1%positive
              = Some (stored "$set" "count" (PyInt 5) (UpdateExpression__init__ q0))).
  { vm_compute. reflexivity. }
  assert (Hv : call_op (CallAppend tags (PyInt 4))
               ∈ valid_modifiers (get_type (call_qfield (CallAppend tags (PyInt 4))))).
  { apply (bool_decide_unpack _). vm_compute. reflexivity. }
  destruct (stored_value_is_read_back 1%positive (CallAppend tags (PyInt 4))
              (PyInt 4) _ _ H Hv eq_refl) as (d & Hd & Hnew & Hold).
  exists d. split; [exact Hd|]. split; [exact Hnew|].
  rewrite (Hold "$set" "count"); [vm_compute; reflexivity|].
  left. discriminate.
Defined.

(** ** How calls compose *)

Lemma entry_set_commute (op1 name1 op2 name2 : string) (v1 v2 : pyval)
    (d : gmap string (gmap string pyval)) :
  op1 ≠ op2 ∨ name1 ≠ name2 →
  entry_set op1 name1 v1 (entry_set op2 name2 v2 d)
  = entry_set op2 name2 v2 (entry_set op1 name1 v1 d).
Proof.
  intros H. unfold entry_set.
  destruct (decide (op1 = op2)) as [<-|Hop].
  - destruct H as [H|H]; [done|].
    rewrite !lookup_insert_eq. simpl. rewrite !insert_insert_eq.
    f_equal. by apply insert_insert_ne.
  - rewrite (lookup_insert_ne _ op2 op1) by done.
    rewrite (lookup_insert_ne _ op1 op2) by done.
    by apply insert_insert_ne.
Qed.

(** X2: two calls that both return and differ in operator or in field name
    can be chained in either order: the result and the world are the same. *)
Theorem independent_calls_commute (self : loc) (c1 c2 : call) (v1 v2 : pyval)
    (u : UpdateExpression) (w : world) :
  objects w !! self = Some u →
  call_op c1 ∈ valid_modifiers (get_type (call_qfield c1)) →
  call_op c2 ∈ valid_modifiers (get_type (call_qfield c2)) →
  encoded c1 = inr v1 →
  encoded c2 = inr v2 →
  call_op c1 ≠ call_op c2 ∨ get_name (call_qfield c1) ≠ get_name (call_qfield c2) →
  (r ← run_call self c1; run_call r c2) w
  = (r ← run_call self c2; run_call r c1) w.
Proof.
  intros Hself Hv1 Hv2 He1 He2 Hne. rewrite !bind_run.
  rewrite (run_call_valid _ _ _ _ Hself Hv1), He1.
  rewrite (run_call_valid _ _ _ _ Hself Hv2), He2.
  rewrite (run_call_valid _ _ _ _ (objects_put _ _ _) Hv2), He2.
  rewrite (run_call_valid _ _ _ _ (objects_put _ _ _) Hv1), He1.
  rewrite !put_put. unfold stored. cbn [update_data with_update_data].
  by rewrite (entry_set_commute _ _ _ _ v1 v2 _ Hne).
Qed.

(** [set(count, 5).append(tags, 4)] and [append(tags, 4).set(count, 5)]. *)
Lemma independent_calls_commute_witness :
  (r ← run_call 1%positive (CallSet count (PyInt 5));
   run_call r (CallAppend tags (PyInt 4))) w1
  = (r ← run_call 1%positive (CallAppend tags (PyInt 4));
     run_call r (CallSet count (PyInt 5))) w1.
Proof.
  assert (H : objects w1 !! 1%positive = Some (UpdateExpression__init__ q0)).
  { vm_compute. reflexivity. }
  assert (Hv1 : "$set" ∈ valid_modifiers (get_type count)).
  { apply (bool_decide_unpack _). vm_compute. reflexivity. }
  assert (Hv2 : "$push" ∈ valid_modifiers (get_type tags)).
  { apply (bool_decide_unpack _). vm_compute. reflexivity. }
  apply (independent_calls_commute 1%positive (CallSet count (PyInt 5))
           (CallAppend tags (PyInt 4)) (PyInt 5) (PyInt 4) _ w1 H Hv1 Hv2
           eq_refl eq_refl).
  left. discriminate.
Defined.

Lemma stored_after_call_effect (c1 : call) (op name : string) (v : pyval)
    (u : UpdateExpression) :
  call_op c1 = op → get_name (call_qfield c1) = name →
  stored op name v (call_effect c1 u) = stored op name v u.
Proof.
  intros <- <-. unfold call_effect.
  destruct (decide _); [|done]. unfold stored, ensured.
  destruct (encoded c1); [destruct (variadic c1); [done|]|];
    cbn [update_data with_update_data].
  - by rewrite entry_set_after_ensure.
  - by rewrite entry_set_twice.
Qed.

(** X3: a call that returns replaces whatever an earlier call with the same
    operator and the same field name did, returned or not: the world is the
    one the later call alone would have left. So of [pop_last(f)] and
    [pop_first(f)], or of two [append(f, _)], only the later one is kept. *)
Theorem later_call_replaces_earlier (self : loc) (c1 c2 : call) (v : pyval)
    (u : UpdateExpression) (w : world) :
  objects w !! self = Some u →
  call_op c1 = call_op c2 →
  get_name (call_qfield c1) = get_name (call_qfield c2) →
  call_op c2 ∈ valid_modifiers (get_type (call_qfield c2)) →
  encoded c2 = inr v →
  run_call self c2 (snd (run_call self c1 w)) = run_call self c2 w
  ∧ document self (snd (run_call self c2 (snd (run_call self c1 w))))
    = Some (entry_set (call_op c2) (get_name (call_qfield c2)) v (update_data u)).
Proof.
  intros Hself Hop Hname Hv Henc.
  rewrite (run_call_world _ _ _ _ Hself).
  rewrite (run_call_valid _ _ _ _ (objects_put _ _ _) Hv), Henc.
  rewrite (run_call_valid _ _ _ _ Hself Hv), Henc.
  rewrite put_put, (stored_after_call_effect _ _ _ _ _ Hop Hname).
  split; [reflexivity|]. cbn [snd]. by rewrite document_put.
Qed.

(** [pop_last(tags)] then [pop_first(tags)] leaves [{'$pop': {'tags': -1}}]. *)
Lemma later_call_replaces_earlier_witness :
  document 1%positive
    (snd (run_call 1%positive (CallPopFirst tags)
            (snd (run_call 1%positive (CallPopLast tags) w1))))
  = Some {[ "$pop" := {[ "tags" := PyInt (-1) ]} ]}.
Proof.
  assert (H : objects w1 !! 1%positive = Some (UpdateExpression__init__ q0)).
  { vm_compute. reflexivity. }
  assert (Hv : "$pop" ∈ valid_modifiers (get_type tags)).
  { apply (bool_decide_unpack _). vm_compute. reflexivity. }
  destruct (later_call_replaces_earlier 1%positive (CallPopLast tags)
              (CallPopFirst tags) (PyInt (-1)) _ w1 H eq_refl eq_refl Hv eq_refl)
    as [_ Hdoc].
  rewrite Hdoc. vm_compute. reflexivity.
Defined.

(** ** The variadic calls and their loop *)

Lemma wrapped_items_app (T it : field_type) (vs ws rest acc : list pyval) :
  item_type T = Some it →
  Forall2 (λ v x, wrap it v = inr x) vs ws →
  wrapped_items T (vs ++ rest) acc = wrapped_items T rest (acc ++ ws).
Proof.
  intros Hit H. revert acc.
  induction H as [|v x vs ws Hv _ IH]; intros acc; simpl.
  - by rewrite app_nil_r.
  - rewrite Hit, Hv, IH. by rewrite <- app_assoc.
Qed.

(** X4: the loop wraps the values one by one, in order, with the [wrap] of
    the item type, appending to [wrapped]; it writes nothing. *)
Theorem wrap_each_wraps_in_order (T it : field_type) (vs ws acc : list pyval)
    (w : world) :
  item_type T = Some it →
  Forall2 (λ v x, wrap it v = inr x) vs ws →
  wrap_each T vs acc w = (inr (acc ++ ws), w).
Proof.
  intros Hit H. rewrite wrap_each_run.
  rewrite <- (app_nil_r vs), (wrapped_items_app _ _ _ _ _ _ Hit H). reflexivity.
Qed.

(** Two tuples, wrapped as two lists after what was there. *)
Lemma wrap_each_wraps_in_order_witness :
  wrap_each (ListField TupleField)
    [PyTuple [PyInt 1]; PyTuple [PyInt 2; PyInt 3]] [PyNone] w1
  = (inr [PyNone; PyList [PyInt 1]; PyList [PyInt 2; PyInt 3]], w1).
Proof.
  apply (wrap_each_wraps_in_order (ListField TupleField) TupleField
           [PyTuple [PyInt 1]; PyTuple [PyInt 2; PyInt 3]]
           [PyList [PyInt 1]; PyList [PyInt 2; PyInt 3]] [PyNone] w1 eq_refl).
  repeat constructor.
Defined.

(** X5: a variadic call stops at the first value the item type refuses: it
    raises that value's [BadValueException] and leaves the world as it was,
    without even the operator's dictionary; later values are not looked
    at. *)
Theorem variadic_stops_at_first_bad_value (self : loc) (op : string)
    (qfield : QueryField) (it : field_type) (vs1 ws1 vs2 : list pyval)
    (v : pyval) (msg : string) (w : world) :
  op ∈ valid_modifiers (get_type qfield) →
  item_type (get_type qfield) = Some it →
  Forall2 (λ v x, wrap it v = inr x) vs1 ws1 →
  wrap it v = inl msg →
  _atomic_list_op_multivalue self op qfield (vs1 ++ v :: vs2) w
  = (inl (BadValueException msg), w).
Proof.
  intros Hv Hit Hok Hbad. unfold _atomic_list_op_multivalue.
  rewrite decide_False by auto.
  rewrite bind_run, wrap_each_run, (wrapped_items_app _ _ _ _ _ _ Hit Hok).
  simpl. by rewrite Hit, Hbad.
Qed.

(** [extend(tags, 1, 'two', 'three')]: the second value is refused. *)
Lemma variadic_stops_at_first_bad_value_witness :
  extend 1%positive tags [PyInt 1; PyStr "two"; PyStr "three"] w1
  = (inl (BadValueException "Value is not an instance of int"), w1).
Proof.
  assert (Hv : "$pushAll" ∈ valid_modifiers (get_type tags)).
  { apply (bool_decide_unpack _). vm_compute. reflexivity. }
  apply (variadic_stops_at_first_bad_value 1%positive "$pushAll" tags IntField
           [PyInt 1] [PyInt 1] [PyStr "three"] (PyStr "two") _ w1 Hv eq_refl).
  - repeat constructor.
  - reflexivity.
Defined.

(** X6: a variadic call with at least one value on a type without
    [item_type] raises [AttributeError] and leaves the world as it was, even
    when the type has the [child_type()] that the single-value calls use. *)
Theorem variadic_needs_item_type (self : loc) (op : string)
    (qfield : QueryField) (v : pyval) (vs : list pyval) (w : world) :
  op ∈ valid_modifiers (get_type qfield) →
  item_type (get_type qfield) = None →
  _atomic_list_op_multivalue self op qfield (v :: vs) w
  = (inl (AttributeError "item_type"), w).
Proof.
  intros Hv Hit. unfold _atomic_list_op_multivalue.
  rewrite decide_False by auto.
  rewrite bind_run, wrap_each_run. simpl. by rewrite Hit.
Qed.

(** A type with [child_type()] only: [append] works, [extend] does not. *)
Lemma variadic_needs_item_type_witness :
  extend 1%positive
    {| get_type := {| class_name := "SetField";
                      valid_modifiers := ["$push"; "$pushAll"];
                      wrap := wrap (ListField IntField);
                      item_type := None;
                      child_type := Some IntField |};
       get_name := "seen" |}
    [PyInt 1] w1
  = (inl (AttributeError "item_type"), w1)
  ∧ fst (append 1%positive
           {| get_type := {| class_name := "SetField";
                             valid_modifiers := ["$push"; "$pushAll"];
                             wrap := wrap (ListField IntField);
                             item_type := None;
                             child_type := Some IntField |};
              get_name := "seen" |}
           (PyInt 1) w1)
    = inr 1%positive.
Proof.
  split; [|vm_compute; reflexivity].
  apply (variadic_needs_item_type 1%positive "$pushAll"); [|reflexivity].
  apply (bool_decide_unpack _). vm_compute. reflexivity.
Defined.

(** ** What no sequence of calls does *)

Lemma keys_within_refl (d : gmap string (gmap string pyval)) : keys_within d d.
Proof. intros op x H. eauto. Qed.

Lemma keys_within_trans (d1 d2 d3 : gmap string (gmap string pyval)) :
  keys_within d1 d2 → keys_within d2 d3 → keys_within d1 d3.
Proof.
  intros H12 H23 op x Hx.
  destruct (H12 _ _ Hx) as (x2 & Hx2 & Hin2).
  destruct (H23 _ _ Hx2) as (x3 & Hx3 & Hin3).
  exists x3. split; [done|]. intros name Hn. by apply Hin3, Hin2.
Qed.

Lemma keys_within_ensure_op (op : string) (d : gmap string (gmap string pyval)) :
  keys_within d (ensure_op op d).
Proof.
  unfold ensure_op. destruct (d !! op) eqn:E; [apply keys_within_refl|].
  intros op' x Hx. exists x. split; [|done].
  rewrite lookup_insert_ne; [done|]. intros ->. congruence.
Qed.

Lemma keys_within_entry_set (op name : string) (v : pyval)
    (d : gmap string (gmap string pyval)) :
  keys_within d (entry_set op name v d).
Proof.
  intros op' x Hx. unfold entry_set.
  destruct (decide (op = op')) as [<-|Hne].
  - rewrite Hx. simpl. eexists. split; [apply lookup_insert_eq|].
    intros name' Hn. apply lookup_insert_is_Some'. by right.
  - exists x. split; [|done]. by rewrite lookup_insert_ne.
Qed.

Lemma keys_within_call_effect (c : call) (u : UpdateExpression) :
  keys_within (update_data u) (update_data (call_effect c u)).
Proof.
  unfold call_effect. destruct (decide _); [|apply keys_within_refl].
  destruct (encoded c).
  - destruct (variadic c); [apply keys_within_refl|].
    apply keys_within_ensure_op.
  - apply keys_within_entry_set.
Qed.

(** The object a method call leaves at [self]: same query and session, flags
    set if they were or if the call sets them, no key lost. *)
Lemma run_method_world (self : loc) (m : method) (u : UpdateExpression)
    (w : world) :
  objects w !! self = Some u →
  ∃ u', snd (run_method self m w) = put self u' w
    ∧ query u' = query u ∧ session u' = session u
    ∧ __upsert u' = __upsert u || called CallUpsert (flags_of [m])
    ∧ __multi u' = __multi u || called CallMulti (flags_of [m])
    ∧ keys_within (update_data u) (update_data u').
Proof.
  intros Hself. destruct m as [c|[|]]; cbn [run_method run_flag].
  - exists (call_effect c u). split; [by apply run_call_world|].
    pose proof (keys_within_call_effect c u) as Hk.
    rewrite (call_effect_shape c u).
    generalize dependent (update_data (call_effect c u)). intros d' Hk.
    cbn. rewrite !orb_false_r. repeat split. exact Hk.
  - exists (with_upsert true u). rewrite (upsert_run _ _ _ Hself). cbn.
    rewrite orb_true_r, orb_false_r. repeat split. apply keys_within_refl.
  - exists (with_multi true u). rewrite (multi_run _ _ _ Hself). cbn.
    rewrite orb_true_r, orb_false_r. repeat split. apply keys_within_refl.
Qed.

Lemma called_cons (c c' : flag_call) (cs : list flag_call) :
  called c (c' :: cs) = called c [c'] || called c cs.
Proof. unfold called. simpl. by rewrite orb_false_r. Qed.

Lemma after_methods_world (self : loc) (ms : list method) :
  ∀ (u : UpdateExpression) (w : world),
    objects w !! self = Some u →
    ∃ u', after_methods self ms w = put self u' w
      ∧ query u' = query u ∧ session u' = session u
      ∧ __upsert u' = __upsert u || called CallUpsert (flags_of ms)
      ∧ __multi u' = __multi u || called CallMulti (flags_of ms)
      ∧ keys_within (update_data u) (update_data u').
Proof.
  induction ms as [|m rest IH]; intros u w Hself.
  - exists u. cbn. rewrite !orb_false_r, (put_same _ _ _ Hself).
    repeat split. apply keys_within_refl.
  - destruct (run_method_world _ m _ _ Hself)
      as (u1 & Hw1 & Hq1 & Hs1 & Hup1 & Hmu1 & Hk1).
    cbn [after_methods]. rewrite Hw1.
    destruct (IH u1 (put self u1 w) (objects_put _ _ _))
      as (u2 & Hw2 & Hq2 & Hs2 & Hup2 & Hmu2 & Hk2).
    exists u2. rewrite Hw2, put_put, Hq2, Hs2, Hup2, Hmu2, Hup1, Hmu1.
    split; [done|]. split; [done|]. split; [done|].
    assert (Hfl : ∀ c, called c (flags_of (m :: rest))
                       = called c (flags_of [m]) || called c (flags_of rest)).
    { intros c. destruct m as [c0|c0]; cbn; [done|].
      fold (flags_of rest). apply called_cons. }
    rewrite !Hfl, !orb_assoc. split; [done|]. split; [done|].
    by eapply keys_within_trans.
Qed.

(** X7: whatever operator and flag calls are made on a builder, returned or
    raised, none removes a key of [update_data]: every operator that was
    there stays, and under it every field name. *)
Theorem calls_never_remove_keys (self : loc) (ms : list method)
    (u : UpdateExpression) (w : world) :
  objects w !! self = Some u →
  ∃ d, document self (after_methods self ms w) = Some d
    ∧ keys_within (update_data u) d
    ∧ ∀ op name, is_Some (entry op name (update_data u)) →
                 is_Some (entry op name d).
Proof.
  intros Hself.
  destruct (after_methods_world _ ms _ _ Hself) as (u' & Hw & _ & _ & _ & _ & Hk).
  exists (update_data u'). rewrite Hw, document_put.
  split; [done|]. split; [done|].
  intros op name [v Hv]. unfold entry in *.
  destruct (update_data u !! op) as [x|] eqn:E; [|discriminate]. simpl in Hv.
  destruct (Hk _ _ E) as (x' & Hx' & Hin). rewrite Hx'. simpl. apply Hin. eauto.
Qed.

(** After [set(count, 5)], a refused [append], a [pop_first] and [upsert()]
    leave the [$set] entry of [count] in place. *)
Lemma calls_never_remove_keys_witness :
  ∃ d, document 1%positive
         (after_methods 1%positive
            [OpCall (CallAppend count (PyInt 1)); OpCall (CallPopFirst tags);
             FlagCall CallUpsert]
            (snd (set 1%positive count (PyInt 5) w1))) = Some d
    ∧ is_Some (entry "$set" "count" d).
Proof.
  assert (H : objects (snd (set 1%positive count (PyInt 5) w1)) !! 1%positive
              = Some (stored "$set" "count" (PyInt 5) (UpdateExpression__init__ q0))).
  { vm_compute. reflexivity. }
  destruct (calls_never_remove_keys 1%positive
              [OpCall (CallAppend count (PyInt 1)); OpCall (CallPopFirst tags);
               FlagCall CallUpsert] _ _ H) as (d & Hd & _ & Hin).
  exists d. split; [exact Hd|]. apply Hin.
  exists (PyInt 5). vm_compute. reflexivity.
Defined.

(** X8: whatever operator and flag calls are made on a builder, its query and
    its session stay what they were, each flag is true exactly if it was or
    its setter was among the calls, and neither another object nor the wire
    is touched. *)
Theorem calls_keep_query_session_and_frame (self : loc) (ms : list method)
    (u : UpdateExpression) (w : world) :
  objects w !! self = Some u →
  ∃ u', objects (after_methods self ms w) !! self = Some u'
    ∧ query u' = query u
    ∧ session u' = session u
    ∧ __upsert u' = __upsert u || called CallUpsert (flags_of ms)
    ∧ __multi u' = __multi u || called CallMulti (flags_of ms)
    ∧ (∀ l, l ≠ self → objects (after_methods self ms w) !! l = objects w !! l)
    ∧ wire (after_methods self ms w) = wire w.
Proof.
  intros Hself.
  destruct (after_methods_world _ ms _ _ Hself)
    as (u' & Hw & Hq & Hs & Hup & Hmu & _).
  exists u'. rewrite Hw. split; [apply objects_put|].
  split; [done|]. split; [done|]. split; [done|]. split; [done|].
  split; [|reflexivity]. intros l Hl. by apply objects_put_ne.
Qed.

(** A new builder keeps the session of its query through calls, and only
    [multi()] having been called, only that flag is set. *)
Lemma calls_keep_query_session_and_frame_witness :
  ∃ u', objects (after_methods 1%positive
                   [OpCall (CallSet count (PyStr "five")); FlagCall CallMulti;
                    OpCall (CallExtend tags [PyInt 1])] w1) !! 1%positive
        = Some u'
    ∧ query u' = q0 ∧ session u' = query_session q0
    ∧ __upsert u' = false ∧ __multi u' = true.
Proof.
  assert (H : objects w1 !! 1%positive = Some (UpdateExpression__init__ q0)).
  { vm_compute. reflexivity. }
  destruct (calls_keep_query_session_and_frame 1%positive
              [OpCall (CallSet count (PyStr "five")); FlagCall CallMulti;
               OpCall (CallExtend tags [PyInt 1])] _ w1 H)
    as (u' & Hu' & Hq & Hs & Hup & Hmu & _).
  exists u'. split; [exact Hu'|]. split; [exact Hq|]. split; [exact Hs|].
  split; [exact Hup|exact Hmu].
Defined.

(** ** Operator calls and flag calls *)

Lemma run_call_result (self : loc) (c : call) (u : UpdateExpression) (w : world) :
  objects w !! self = Some u →
  fst (run_call self c w)
  = if decide (call_op c ∈ valid_modifiers (get_type (call_qfield c))) then
      match encoded c with
      | inr _ => inr self
      | inl e => inl e
      end
    else inl (new_InvalidModifierException (get_type (call_qfield c)) (call_op c)).
Proof.
  intros Hself. destruct (decide _) as [Hv|Hn].
  - rewrite (run_call_valid _ _ _ _ Hself Hv). by destruct (encoded c).
  - by rewrite (run_call_invalid _ _ _ Hn).
Qed.

Lemma call_effect_with_upsert (b : bool) (c : call) (u : UpdateExpression) :
  call_effect c (with_upsert b u) = with_upsert b (call_effect c u).
Proof.
  unfold call_effect. destruct (decide _); [|done].
  destruct (encoded c); [|done]. by destruct (variadic c).
Qed.

Lemma call_effect_with_multi (b : bool) (c : call) (u : UpdateExpression) :
  call_effect c (with_multi b u) = with_multi b (call_effect c u).
Proof.
  unfold call_effect. destruct (decide _); [|done].
  destruct (encoded c); [|done]. by destruct (variadic c).
Qed.

(** X9: a flag setter and an operator call do not see each other: the flag
    does not change what the operator call returns or raises, the setter
    returns the builder after any operator call, and made in either order
    the two leave the same world. *)
Theorem flag_and_operator_calls_commute (self : loc) (f : flag_call) (c : call)
    (u : UpdateExpression) (w : world) :
  objects w !! self = Some u →
  fst (run_call self c (snd (run_flag self f w))) = fst (run_call self c w)
  ∧ fst (run_flag self f (snd (run_call self c w))) = inr self
  ∧ snd (run_flag self f (snd (run_call self c w)))
    = snd (run_call self c (snd (run_flag self f w))).
Proof.
  intros Hself. rewrite (run_call_world _ _ _ _ Hself).
  rewrite (run_call_result _ _ _ _ Hself).
  destruct f; cbn [run_flag].
  - rewrite (upsert_run _ _ _ Hself), (upsert_run _ _ _ (objects_put _ _ _)).
    cbn [fst snd].
    rewrite (run_call_result _ _ _ _ (objects_put _ _ _)).
    rewrite (run_call_world _ _ _ _ (objects_put _ _ _)).
    by rewrite !put_put, call_effect_with_upsert.
  - rewrite (multi_run _ _ _ Hself), (multi_run _ _ _ (objects_put _ _ _)).
    cbn [fst snd].
    rewrite (run_call_result _ _ _ _ (objects_put _ _ _)).
    rewrite (run_call_world _ _ _ _ (objects_put _ _ _)).
    by rewrite !put_put, call_effect_with_multi.
Qed.

(** [upsert()] before or after [set(count, 5)]. *)
Lemma flag_and_operator_calls_commute_witness :
  snd (run_flag 1%positive CallUpsert
         (snd (run_call 1%positive (CallSet count (PyInt 5)) w1)))
  = snd (run_call 1%positive (CallSet count (PyInt 5))
           (snd (run_flag 1%positive CallUpsert w1))).
Proof.
  assert (H : objects w1 !! 1%positive = Some (UpdateExpression__init__ q0)).
  { vm_compute. reflexivity. }
  destruct (flag_and_operator_calls_commute 1%positive CallUpsert
              (CallSet count (PyInt 5)) _ w1 H) as (_ & _ & Hworld).
  exact Hworld.
Defined.



(** ** Which encoder a call uses *)

(** X11: [set] and [inc] store what the field type's own [wrap] returns,
    [inc] without a value wrapping 1; [append], [remove] and [add_to_set]
    store what the [wrap] of [child_type()] returns, the type's own [wrap]
    not being consulted. *)
Theorem single_value_calls_use_their_encoder (self : loc) (qfield : QueryField)
    (value x : pyval) (u : UpdateExpression) (w : world) :
  objects w !! self = Some u →
  (wrap (get_type qfield) value = inr x →
     ("$set" ∈ valid_modifiers (get_type qfield) →
        set self qfield value w
        = (inr self, put self (stored "$set" (get_name qfield) x u) w))
     ∧ ("$inc" ∈ valid_modifiers (get_type qfield) →
          inc self qfield (Some value) w
          = (inr self, put self (stored "$inc" (get_name qfield) x u) w)))
  ∧ (wrap (get_type qfield) (PyInt 1) = inr x →
     "$inc" ∈ valid_modifiers (get_type qfield) →
     inc self qfield None w
     = (inr self, put self (stored "$inc" (get_name qfield) x u) w))
  ∧ (∀ ct, child_type (get_type qfield) = Some ct →
     wrap ct value = inr x →
     ("$push" ∈ valid_modifiers (get_type qfield) →
        append self qfield value w
        = (inr self, put self (stored "$push" (get_name qfield) x u) w))
     ∧ ("$pull" ∈ valid_modifiers (get_type qfield) →
          remove self qfield value w
          = (inr self, put self (stored "$pull" (get_name qfield) x u) w))
     ∧ ("$addToSet" ∈ valid_modifiers (get_type qfield) →
          add_to_set self qfield value w
          = (inr self, put self (stored "$addToSet" (get_name qfield) x u) w))).
Proof.
  intros Hself. unfold set, inc, append, remove, add_to_set.
  split; [|split].
  - intros Hw. split; intros Hv;
      rewrite (_atomic_op_valid _ _ _ u w Hself Hv); unfold wrapped_value;
      simpl; by rewrite Hw.
  - intros Hw Hv. rewrite (_atomic_op_valid _ _ _ u w Hself Hv).
    unfold wrapped_value. simpl. by rewrite Hw.
  - intros ct Hct Hw. repeat split; intros Hv;
      rewrite (_atomic_list_op_valid _ _ _ u w Hself Hv);
      unfold wrapped_child_value, wrapped_value; by rewrite Hct, Hw.
Qed.

(** [append(pairs, (1, 2))] stores the list [[1, 2]] that [TupleField] makes
    of the tuple, which the list field's own [wrap] would refuse. *)
Lemma single_value_calls_use_their_encoder_witness :
  wrap (get_type pairs) (PyTuple [PyInt 1; PyInt 2])
  = inl "Value is not an instance of list"
  ∧ document 1%positive
      (snd (append 1%positive pairs (PyTuple [PyInt 1; PyInt 2]) w1))
    = Some {[ "$push" := {[ "pairs" := PyList [PyInt 1; PyInt 2] ]} ]}.
Proof.
  assert (H : objects w1 !! 1%positive = Some (UpdateExpression__init__ q0)).
  { vm_compute. reflexivity. }
  assert (Hv : "$push" ∈ valid_modifiers (get_type pairs)).
  { apply (bool_decide_unpack _). vm_compute. reflexivity. }
  split; [reflexivity|].
  destruct (single_value_calls_use_their_encoder 1%positive pairs
              (PyTuple [PyInt 1; PyInt 2]) (PyList [PyInt 1; PyInt 2]) _ w1 H)
    as (_ & _ & Hlist).
  destruct (Hlist TupleField eq_refl eq_refl) as [Happend _].
  rewrite (Happend Hv). vm_compute. reflexivity.
Defined.
